(** * DebugGPT: the language detector and the rule engine of [src/DebugGPT.tsx]

    A shallow embedding of the detection and rule-matching code of the
    component, and the properties its specification states about it.

    JavaScript strings are sequences of UTF-16 code units; they are modelled
    as lists of code units ([N]).  Numbers that are indices, lengths or line
    numbers are integers: lengths and indices are [nat], a line number is a
    [Z] because [findIndex] answers [-1] when nothing is found.  The arrays
    [errors] and [tips] that the analysis functions mutate are threaded
    through the functions explicitly; [push] appends at the end. *)

From Stdlib Require Import String Ascii DecimalString.
From Stdlib Require Import List Bool Arith NArith ZArith Lia Sorted.
Import ListNotations.

Set Implicit Arguments.

(** ** Strings *)

Module JS.

Definition jsstring := list N.

(** The code units of an ASCII literal of the source. *)
Fixpoint str (s : string) : jsstring :=
  match s with
  | EmptyString => []
  | String a t => N_of_ascii a :: str t
  end.

(** The code unit of a one-character literal. *)
Definition chr (a : ascii) : N := N_of_ascii a.

(** The double quote, U+0022. *)
Definition dquote : N := 34%N.

Definition inRange (lo hi c : N) : bool := (lo <=? c)%N && (c <=? hi)%N.

(** ECMAScript LineTerminator: LF, CR, LS, PS. *)
Definition isLineTerminator (c : N) : bool :=
  existsb (N.eqb c) [10; 13; 8232; 8233]%N.

(** ECMAScript WhiteSpace or LineTerminator: what [\s] matches and what
    [String.prototype.trim] strips. *)
Definition isWhiteSpace (c : N) : bool :=
  existsb (N.eqb c) [9; 11; 12; 32; 160; 5760; 8239; 8287; 12288; 65279]%N
  || inRange 8192 8202 c
  || isLineTerminator c.

(** What [\w] matches: [A-Za-z0-9_]. *)
Definition isWordChar (c : N) : bool :=
  inRange 97 122 c || inRange 65 90 c || inRange 48 57 c || N.eqb c 95.

Fixpoint dropWhile (f : N -> bool) (s : jsstring) : jsstring :=
  match s with
  | [] => []
  | c :: t => if f c then dropWhile f t else s
  end.

(** [s.trim()] *)
Definition trim (s : jsstring) : jsstring :=
  rev (dropWhile isWhiteSpace (rev (dropWhile isWhiteSpace s))).

(** A string is falsy exactly when it is empty: [!s]. *)
Definition falsy (s : jsstring) : bool :=
  match s with [] => true | _ :: _ => false end.

Fixpoint startsWith (s sub : jsstring) : bool :=
  match sub, s with
  | [], _ => true
  | _ :: _, [] => false
  | c :: sub', d :: s' => N.eqb d c && startsWith s' sub'
  end.

(** [s.includes(sub)]: [sub] occurs at some position of [s]. *)
Fixpoint includes (s sub : jsstring) : bool :=
  startsWith s sub ||
  match s with
  | [] => false
  | _ :: t => includes t sub
  end.

(** [lines.join("")] *)
Definition join (lines : list jsstring) : jsstring := concat lines.

(** [code.split("\n")]: the pieces between line feeds; never empty. *)
Fixpoint split_lf (s : jsstring) : list jsstring :=
  match s with
  | [] => [[]]
  | c :: t =>
      if N.eqb c 10 then [] :: split_lf t
      else match split_lf t with
           | [] => [[c]]
           | l :: ls => (c :: l) :: ls
           end
  end.

(** The decimal text of a non-negative integer, as a template literal
    prints it. *)
Definition Number_toString (n : nat) : jsstring :=
  str (NilEmpty.string_of_uint (Nat.to_uint n)).

(** [arr.findIndex(p)]: the index of the first element that satisfies [p],
    [-1] when there is none. *)
Fixpoint findIndex_from (A : Type) (p : A -> bool) (l : list A) (index : nat) : Z :=
  match l with
  | [] => (-1)%Z
  | x :: t => if p x then Z.of_nat index else findIndex_from p t (S index)
  end.

Definition findIndex (A : Type) (p : A -> bool) (l : list A) : Z :=
  findIndex_from p l 0.

(** [arr.forEach((x, index) => ...)] where the callback updates a state. *)
Fixpoint forEach_from (A S : Type) (f : A -> nat -> S -> S) (l : list A)
    (index : nat) (st : S) : S :=
  match l with
  | [] => st
  | x :: t => forEach_from f t (Datatypes.S index) (f x index st)
  end.

Definition forEach (A S : Type) (f : A -> nat -> S -> S) (l : list A) (st : S) : S :=
  forEach_from f l 0 st.

End JS.

Import JS.

(** ** Regular expressions

    The patterns of the source are literals without flags, so [test] keeps
    no [lastIndex] between calls and works on code units.  None of them has
    a back-reference or a capture that is read, and [test] only says whether
    some match exists: the matcher below therefore computes, for a pattern
    and a position of the input, every position at which a match of the
    pattern can end.  A position is the code unit before it (none at the
    start of the input) and the text after it. *)

Module RegExp.

Inductive charset : Type :=
| AnyChar                 (* .      every code unit but a line terminator *)
| WhiteSp                 (* \s *)
| WordCh                  (* \w *)
| Only (cs : jsstring)    (* [...]  *)
| Except (cs : jsstring). (* [^...] *)

Inductive regex : Type :=
| Str (s : jsstring)      (* a run of literal characters *)
| Cls (k : charset)
| Cat (a b : regex)
| Alt (a b : regex)
| Star (a : regex)        (* a*  *)
| Plus (a : regex)        (* a+  *)
| Bol                     (* ^   without the m flag: start of input *)
| Eol                     (* $   without the m flag: end of input *)
| WordBoundary            (* \b  *)
| NotAhead (a : regex).   (* (?!a) *)

Definition pos : Type := option N * jsstring.

Definition member (k : charset) (c : N) : bool :=
  match k with
  | AnyChar => negb (isLineTerminator c)
  | WhiteSp => isWhiteSpace c
  | WordCh => isWordChar c
  | Only cs => existsb (N.eqb c) cs
  | Except cs => negb (existsb (N.eqb c) cs)
  end.

Definition isWordAt (o : option N) : bool :=
  match o with
  | Some c => isWordChar c
  | None => false
  end.

(** [\b]: exactly one of the two sides of the position is a word character. *)
Definition atBoundary (p : pos) : bool :=
  xorb (isWordAt (fst p)) (isWordAt (hd_error (snd p))).

Fixpoint eat (s : jsstring) (p : pos) : list pos :=
  match s with
  | [] => [p]
  | c :: s' =>
      match snd p with
      | x :: t => if N.eqb x c then eat s' (Some x, t) else []
      | [] => []
      end
  end.

(** Zero or more rounds of [step]; a round that consumes nothing is dropped,
    as the RepeatMatcher of ECMAScript does, so the text left bounds the
    number of rounds. *)
Fixpoint rounds (step : pos -> list pos) (fuel : nat) (p : pos) : list pos :=
  p :: match fuel with
       | O => []
       | S n =>
           flat_map
             (fun q => if length (snd q) <? length (snd p) then rounds step n q else [])
             (step p)
       end.

Fixpoint ends (r : regex) (p : pos) : list pos :=
  match r with
  | Str s => eat s p
  | Cls k =>
      match snd p with
      | x :: t => if member k x then [(Some x, t)] else []
      | [] => []
      end
  | Cat a b => flat_map (ends b) (ends a p)
  | Alt a b => ends a p ++ ends b p
  | Star a => rounds (ends a) (length (snd p)) p
  | Plus a => flat_map (fun q => rounds (ends a) (length (snd q)) q) (ends a p)
  | Bol => match fst p with None => [p] | Some _ => [] end
  | Eol => match snd p with [] => [p] | _ :: _ => [] end
  | WordBoundary => if atBoundary p then [p] else []
  | NotAhead a => match ends a p with [] => [p] | _ :: _ => [] end
  end.

(** Every position of the input, from the start on. *)
Fixpoint positions (prev : option N) (s : jsstring) : list pos :=
  (prev, s) :: match s with
               | [] => []
               | c :: t => positions (Some c) t
               end.

Definition matchesAt (r : regex) (p : pos) : bool :=
  match ends r p with
  | [] => false
  | _ :: _ => true
  end.

(** [r.test(s)]: the pattern matches somewhere in [s]. *)
Definition test (r : regex) (s : jsstring) : bool :=
  existsb (matchesAt r) (positions None s).

End RegExp.

Import RegExp.

Declare Scope re_scope.
Delimit Scope re_scope with re.
Bind Scope re_scope with regex.
Notation "a ;; b" := (Cat a b) (at level 61, right associativity) : re_scope.
Notation "a <|> b" := (Alt a b) (at level 62, right associativity) : re_scope.
Notation "' s" := (Str (str s)) (at level 5, s at level 0, format "' s") : re_scope.
Notation "\s" := (Cls WhiteSp) : re_scope.
Notation "\w" := (Cls WordCh) : re_scope.
Notation "\b" := WordBoundary : re_scope.
Arguments str s%_string.
Arguments chr a%_char.

(** ** The data of the component *)

Inductive Language : Type :=
| JavaScript | Python | C | Cpp | Java | HTML | CSS | CSharp | TypeScript | Unknown.

Definition Language_eq_dec (a b : Language) : {a = b} + {a <> b}.
Proof. decide equality. Defined.

(** The enumeration, for statements about every language. *)
Definition all_languages : list Language :=
  [JavaScript; Python; C; Cpp; Java; HTML; CSS; CSharp; TypeScript; Unknown].

Inductive Severity : Type := syntax | logical | warning.

Definition Severity_eqb (a b : Severity) : bool :=
  match a, b with
  | syntax, syntax | logical, logical | warning, warning => true
  | _, _ => false
  end.

Record ErrorType : Type := {
  line : Z;
  message : jsstring;
  suggestion : jsstring;
  type : Severity;
  codeSnippet : option jsstring
}.

Module Rule.
Record t : Type := {
  regex : RegExp.regex;
  type : Severity;
  message : jsstring;
  suggestion : jsstring
}.
End Rule.

Definition Rule := Rule.t.

Local Open Scope re_scope.

(** [/==[^=]/] *)
Definition re_loose_equality : regex := '"==" ;; Cls (Except (str "=")).
(** [/\bvar\b/] *)
Definition re_var : regex := \b ;; '"var" ;; \b.
(** [/console\.log\([^)]*$/] *)
Definition re_console_log : regex :=
  '"console.log(" ;; Star (Cls (Except (str ")"))) ;; Eol.
(** [/^.*print\s+[^()]/] *)
Definition re_print : regex :=
  Bol ;; Star (Cls AnyChar) ;; '"print" ;; Plus \s ;; Cls (Except (str "()")).
(** [/^.*import \*/] *)
Definition re_import_star : regex := Bol ;; Star (Cls AnyChar) ;; '"import *".
(** [/<img\b(?!.*\balt=)/] *)
Definition re_img_alt : regex :=
  '"<img" ;; \b ;; NotAhead (Star (Cls AnyChar) ;; \b ;; '"alt=").
(** [/!important/] *)
Definition re_important : regex := '"!important".
(** [/px/] *)
Definition re_px : regex := '"px".

Definition loose_equality_rule : Rule :=
  {| Rule.regex := re_loose_equality; Rule.type := warning;
     Rule.message := str "Loose equality (==) found.";
     Rule.suggestion := str "Use === for strict equality checks." |}.

(** The object literal [rules], key by key in the order it is written. *)
Definition rules : list (Language * list Rule) :=
  [ (JavaScript,
      [ loose_equality_rule;
        {| Rule.regex := re_var; Rule.type := warning;
           Rule.message := str "Found var declaration.";
           Rule.suggestion := str "Use let or const for better scoping." |};
        {| Rule.regex := re_console_log; Rule.type := syntax;
           Rule.message := str "Possible missing semicolon.";
           Rule.suggestion := str "Add a semicolon at the end." |} ]);
    (TypeScript, [ loose_equality_rule ]);
    (Python,
      [ {| Rule.regex := re_print; Rule.type := syntax;
           Rule.message := str "Python 3 print requires parentheses.";
           Rule.suggestion := str "Use print() instead of print." |};
        {| Rule.regex := re_import_star; Rule.type := warning;
           Rule.message := str "Wildcard import found.";
           Rule.suggestion := str "Avoid 'import *'. Import what you need." |} ]);
    (HTML,
      [ {| Rule.regex := re_img_alt; Rule.type := warning;
           Rule.message := str "Image missing alt attribute.";
           Rule.suggestion := str "Add alt for accessibility." |} ]);
    (CSS,
      [ {| Rule.regex := re_important; Rule.type := warning;
           Rule.message := str "Avoid !important.";
           Rule.suggestion := str "Use more specific selectors instead." |};
        {| Rule.regex := re_px; Rule.type := warning;
           Rule.message := str "Pixel units used.";
           Rule.suggestion := str "Consider rem/em for responsiveness." |} ]);
    (C, []); (Cpp, []); (Java, []); (CSharp, []); (Unknown, []) ].

(** [rules[language]]: the property of the object, [None] for [undefined]. *)
Fixpoint property (A : Type) (o : list (Language * A)) (key : Language) : option A :=
  match o with
  | [] => None
  | (k, v) :: o' => if Language_eq_dec k key then Some v else property o' key
  end.

(** ** The language detector *)

(** The patterns of the array [patterns] of [detectLanguage]. *)

(** [/(function\s*\(|=>|const\s+\w+\s*=|let\s+\w+\s*=|var\s+\w+\s*=)/] *)
Definition pat_JavaScript : regex :=
  '"function" ;; Star \s ;; '"("
  <|> '"=>"
  <|> '"const" ;; Plus \s ;; Plus \w ;; Star \s ;; '"="
  <|> '"let" ;; Plus \s ;; Plus \w ;; Star \s ;; '"="
  <|> '"var" ;; Plus \s ;; Plus \w ;; Star \s ;; '"=".

(** [/(def\s+\w+\s*\(|import\s+\w+|print\s*\(|from\s+\w+\s+import)/] *)
Definition pat_Python : regex :=
  '"def" ;; Plus \s ;; Plus \w ;; Star \s ;; '"("
  <|> '"import" ;; Plus \s ;; Plus \w
  <|> '"print" ;; Star \s ;; '"("
  <|> '"from" ;; Plus \s ;; Plus \w ;; Plus \s ;; '"import".

(** [/(#include\s*<|printf\s*\(|int\s+main\s*\()/] *)
Definition pat_C : regex :=
  '"#include" ;; Star \s ;; '"<"
  <|> '"printf" ;; Star \s ;; '"("
  <|> '"int" ;; Plus \s ;; '"main" ;; Star \s ;; '"(".

(** [/(std::|#include\s*<|using\s+namespace|cout\s*<<)/] *)
Definition pat_Cpp : regex :=
  '"std::"
  <|> '"#include" ;; Star \s ;; '"<"
  <|> '"using" ;; Plus \s ;; '"namespace"
  <|> '"cout" ;; Star \s ;; '"<<".

(** [/(public\s+class|System\.out\.println|import\s+java\.)/] *)
Definition pat_Java : regex :=
  '"public" ;; Plus \s ;; '"class"
  <|> '"System.out.println"
  <|> '"import" ;; Plus \s ;; '"java.".

(** [/(<!DOCTYPE html>|<html|<div\s|class\s*=\s*Q)/], where [Q] stands for
    the double quote character. *)
Definition pat_HTML : regex :=
  '"<!DOCTYPE html>"
  <|> '"<html"
  <|> '"<div" ;; \s
  <|> '"class" ;; Star \s ;; '"=" ;; Star \s ;; Str [dquote].

(** [/(\.\w+\s*{|#\w+\s*{|@media|color:\s*#)/] *)
Definition pat_CSS : regex :=
  '"." ;; Plus \w ;; Star \s ;; '"{"
  <|> '"#" ;; Plus \w ;; Star \s ;; '"{"
  <|> '"@media"
  <|> '"color:" ;; Star \s ;; '"#".

(** [/(using\s+System|namespace\s+\w+|Console\.WriteLine)/] *)
Definition pat_CSharp : regex :=
  '"using" ;; Plus \s ;; '"System"
  <|> '"namespace" ;; Plus \s ;; Plus \w
  <|> '"Console.WriteLine".

(** [/(type\s+\w+\s*=|interface\s+\w+\s*{|:\s*\w+\s*[;=])/] *)
Definition pat_TypeScript : regex :=
  '"type" ;; Plus \s ;; Plus \w ;; Star \s ;; '"="
  <|> '"interface" ;; Plus \s ;; Plus \w ;; Star \s ;; '"{"
  <|> '":" ;; Star \s ;; Plus \w ;; Star \s ;; Cls (Only (str ";=")).

(** The array [patterns], in its order. *)
Definition patterns : list (regex * Language) :=
  [ (pat_JavaScript, JavaScript);
    (pat_Python, Python);
    (pat_C, C);
    (pat_Cpp, Cpp);
    (pat_Java, Java);
    (pat_HTML, HTML);
    (pat_CSS, CSS);
    (pat_CSharp, CSharp);
    (pat_TypeScript, TypeScript) ].

Local Close Scope re_scope.

(** The [for ... of] loop with its early [return]. *)
Fixpoint first_match (ps : list (regex * Language)) (s : jsstring) : option Language :=
  match ps with
  | [] => None
  | (pattern, language) :: ps' =>
      if test pattern s then Some language else first_match ps' s
  end.

Definition detectLanguage (code : jsstring) : Language :=
  let trimmedCode := trim code in
  if falsy trimmedCode then Unknown
  else match first_match patterns trimmedCode with
       | Some language => language
       | None => Unknown
       end.

(** ** The rule engine *)

Definition push (A : Type) (arr : list A) (x : A) : list A := arr ++ [x].

Definition analyzeCodeByRules (lines : list jsstring) (language : Language)
    (errors : list ErrorType) (tips : list jsstring)
    : list ErrorType * list jsstring :=
  let langRules :=
    match property rules language with
    | Some rs => rs
    | None => []
    end in
  forEach
    (fun line index st =>
       let lineNumber := (Z.of_nat index + 1)%Z in
       forEach
         (fun (rule : Rule) (_ : nat) (st : list ErrorType * list jsstring) =>
            if test (Rule.regex rule) line
            then (push (fst st)
                    {| line := lineNumber;
                       message := Rule.message rule;
                       suggestion := Rule.suggestion rule;
                       type := Rule.type rule;
                       codeSnippet := Some (trim line) |},
                  snd st)
            else st)
         langRules st)
    lines (errors, tips).

(** The template literal of the long-line tip. *)
Definition long_line_tip (lineNumber length : nat) : jsstring :=
  str "Line " ++ Number_toString lineNumber ++ str " is long ("
  ++ Number_toString length ++ str " chars). Consider splitting.".

Definition has_loop (s : jsstring) : bool :=
  includes s (str "while(true)") || includes s (str "for(;;)").

Definition analyzeGeneral (lines : list jsstring)
    (errors : list ErrorType) (tips : list jsstring)
    : list ErrorType * list jsstring :=
  let tips :=
    forEach
      (fun line index tips =>
         if 100 <? length line
         then push tips (long_line_tip (index + 1) (length line))
         else tips)
      lines tips in
  let content := join lines in
  if has_loop content
  then (push errors
          {| line := (findIndex has_loop lines + 1)%Z;
             message := str "Potential infinite loop detected.";
             suggestion := str "Add a break condition.";
             type := logical;
             codeSnippet := None |},
        tips)
  else (errors, tips).

(** What the timeout callback of [analyzeCode] computes from the lines and
    the detected language: two fresh arrays, filled by the two passes. *)
Definition analyze (lines : list jsstring) (language : Language)
    : list ErrorType * list jsstring :=
  let newErrors := [] in
  let newTips := [] in
  let '(newErrors, newTips) := analyzeCodeByRules lines language newErrors newTips in
  analyzeGeneral lines newErrors newTips.

(** ** The component state and [analyzeCode] *)

Module Component.

Inductive Theme : Type := light | dark.

Record State : Type := {
  code : jsstring;
  language : option Language;
  errors : list ErrorType;
  tips : list jsstring;
  isAnalyzing : bool;
  theme : Theme
}.

(** [useState] initial values. *)
Definition initial : State :=
  {| code := []; language := None; errors := []; tips := [];
     isAnalyzing := false; theme := dark |}.

(** The callback handed to [setTimeout]; it closes over the [code] and the
    [detectedLang] of the call that scheduled it and runs on whatever the
    state is when the timer fires. *)
Definition onTimeout (code0 : jsstring) (detectedLang : Language) (st : State) : State :=
  let lines := split_lf code0 in
  let '(newErrors, newTips) := analyze lines detectedLang in
  {| code := code st; language := language st;
     errors := newErrors; tips := newTips;
     isAnalyzing := false; theme := theme st |}.

(** The synchronous part of [analyzeCode]: the state after it, and the
    captured values of the callback it schedules, if any. *)
Definition analyzeCode_start (st : State) : State * option (jsstring * Language) :=
  if falsy (trim (code st)) then (st, None)
  else
    let detectedLang := detectLanguage (code st) in
    ({| code := code st; language := Some detectedLang;
        errors := []; tips := [];
        isAnalyzing := true; theme := theme st |},
     Some (code st, detectedLang)).

(** [analyzeCode] followed by its timer, with nothing in between. *)
Definition analyzeCode (st : State) : State :=
  match analyzeCode_start st with
  | (st', Some (code0, detectedLang)) => onTimeout code0 detectedLang st'
  | (st', None) => st'
  end.

(** The handler of the text area: [setCode(e.target.value)]. *)
Definition setCode (value : jsstring) (st : State) : State :=
  {| code := value; language := language st;
     errors := errors st; tips := tips st;
     isAnalyzing := isAnalyzing st; theme := theme st |}.

(** [toggleTheme]: [setTheme(prev => prev === "dark" ? "light" : "dark")]. *)
Definition toggleTheme (st : State) : State :=
  {| code := code st; language := language st;
     errors := errors st; tips := tips st;
     isAnalyzing := isAnalyzing st;
     theme := match theme st with dark => light | light => dark end |}.

(** The [disabled] attribute of the analyze button:
    [!code.trim() || isAnalyzing]. *)
Definition analyzeDisabled (st : State) : bool :=
  falsy (trim (code st)) || isAnalyzing st.

End Component.

(** * Vocabulary of the statements

    The words the properties below are stated with: substring containment,
    the lists that the two passes append, and the words of a pattern. *)

(** [s] contains [sub] as a substring. *)
Definition contains (s sub : jsstring) : Prop :=
  exists a b, s = a ++ sub ++ b.

(** The loop test in words: the text contains one of the two literals. *)
Definition mentions_loop (s : jsstring) : Prop :=
  contains s (str "while(true)") \/ contains s (str "for(;;)").

Definition langRules_of (language : Language) : list Rule :=
  match property rules language with
  | Some rs => rs
  | None => []
  end.

(** The Finding that a matching rule pushes. *)
Definition finding_of (l : jsstring) (lineNumber : Z) (rule : Rule) : ErrorType :=
  {| line := lineNumber;
     message := Rule.message rule;
     suggestion := Rule.suggestion rule;
     type := Rule.type rule;
     codeSnippet := Some (trim l) |}.

Definition line_findings (langRules : list Rule) (l : jsstring) (lineNumber : Z)
    : list ErrorType :=
  map (finding_of l lineNumber)
      (filter (fun rule => test (Rule.regex rule) l) langRules).

Fixpoint rule_findings (langRules : list Rule) (lines : list jsstring) (index : nat)
    : list ErrorType :=
  match lines with
  | [] => []
  | l :: rest =>
      line_findings langRules l (Z.of_nat index + 1) ++
      rule_findings langRules rest (S index)
  end.

Fixpoint long_line_tips (lines : list jsstring) (index : nat) : list jsstring :=
  match lines with
  | [] => []
  | l :: rest =>
      (if 100 <? length l then [long_line_tip (index + 1) (length l)] else [])
      ++ long_line_tips rest (S index)
  end.

(** The Finding of the infinite-loop check. *)
Definition loop_finding (lines : list jsstring) : ErrorType :=
  {| line := (findIndex has_loop lines + 1)%Z;
     message := str "Potential infinite loop detected.";
     suggestion := str "Add a break condition.";
     type := logical;
     codeSnippet := None |}.

Definition is_logical (f : ErrorType) : bool := Severity_eqb (type f) logical.

(** The text [while(], a line feed, [true)]. *)
Definition split_loop_code : jsstring := str "while(" ++ [10%N] ++ str "true)".

(** The text [const x = 5; <div class=Q], where [Q] is a double quote. *)
Definition js_with_html : jsstring :=
  str "const x = 5; <div class=" ++ [dquote].

(** The text [x == 5] in the initial state of the component, and the same
    text in a state that still shows the results of an earlier run. *)
Definition state_fresh : Component.State :=
  {| Component.code := str "x == 5"; Component.language := None;
     Component.errors := []; Component.tips := [];
     Component.isAnalyzing := false; Component.theme := Component.dark |}.

Definition state_stale : Component.State :=
  {| Component.code := str "x == 5"; Component.language := Some CSS;
     Component.errors := [loop_finding []]; Component.tips := [str "old"];
     Component.isAnalyzing := false; Component.theme := Component.light |}.

(** Patterns without assertions ([^], [$], [\b], look-ahead): whether they
    match depends on the matched text alone. *)
Fixpoint plain (r : regex) : bool :=
  match r with
  | Str _ | Cls _ => true
  | Cat a b | Alt a b => plain a && plain b
  | Star a | Plus a => plain a
  | Bol | Eol | WordBoundary | NotAhead _ => false
  end.

(** The words of a plain pattern. *)
Inductive lang : regex -> jsstring -> Prop :=
| lang_Str s : lang (Str s) s
| lang_Cls k c : member k c = true -> lang (Cls k) [c]
| lang_Cat a b u v : lang a u -> lang b v -> lang (Cat a b) (u ++ v)
| lang_Alt_l a b u : lang a u -> lang (Alt a b) u
| lang_Alt_r a b u : lang b u -> lang (Alt a b) u
| lang_Star_nil a : lang (Star a) []
| lang_Star_more a u v :
    lang a u -> u <> [] -> lang (Star a) v -> lang (Star a) (u ++ v)
| lang_Plus a u v : lang a u -> lang (Star a) v -> lang (Plus a) (u ++ v).

(** The code unit before the position reached by reading [w]. *)
Definition advance (prev : option N) (w : jsstring) : option N :=
  fold_left (fun _ c => Some c) w prev.

(** [q] is reached from [p] by reading [w]. *)
Definition reads (p : pos) (w : jsstring) (q : pos) : Prop :=
  snd p = w ++ snd q /\ fst q = advance (fst p) w.

(** Every word of the pattern starts with a given character that is not
    white space. *)
Fixpoint solid_start (r : regex) : bool :=
  match r with
  | Str (c :: _) => negb (isWhiteSpace c)
  | Cat a _ => solid_start a
  | Alt a b => solid_start a && solid_start b
  | _ => false
  end.

(** Every word of the pattern ends with a given character that is not
    white space. *)
Fixpoint solid_end (r : regex) : bool :=
  match r with
  | Str s =>
      match rev s with
      | c :: _ => negb (isWhiteSpace c)
      | [] => false
      end
  | Cat _ b => solid_end b
  | Alt a b => solid_end a && solid_end b
  | _ => false
  end.

(** Zero or more rounds of [R], each of them consuming some text. *)
Inductive iter (R : pos -> pos -> Prop) : pos -> pos -> Prop :=
| iter_stop p : iter R p p
| iter_round p m q :
    R p m -> length (snd m) < length (snd p) -> iter R m q -> iter R p q.

(** [reaches r p q]: a match of [r] that starts at [p] can end at [q]; the
    meaning of every pattern, assertions included. *)
Fixpoint reaches (r : regex) (p q : pos) : Prop :=
  match r with
  | Str s => reads p s q
  | Cls k => exists c, member k c = true /\ reads p [c] q
  | Cat a b => exists m, reaches a p m /\ reaches b m q
  | Alt a b => reaches a p q \/ reaches b p q
  | Star a => iter (reaches a) p q
  | Plus a => exists m, reaches a p m /\ iter (reaches a) m q
  | Bol => fst p = None /\ q = p
  | Eol => snd p = [] /\ q = p
  | WordBoundary => atBoundary p = true /\ q = p
  | NotAhead a => (forall m, ~ reaches a p m) /\ q = p
  end.

(** The order of Findings by line number. *)
Definition line_le (f g : ErrorType) : Prop := (line f <= line g)%Z.

Local Open Scope re_scope.

(** The [#include\s*<] alternative that the C and the C++ patterns share. *)
Definition re_include : regex := '"#include" ;; Star \s ;; '"<".

(** The alternatives of the C++ pattern other than [#include\s*<]. *)
Definition re_cpp_only : regex :=
  '"std::"
  <|> '"using" ;; Plus \s ;; '"namespace"
  <|> '"cout" ;; Star \s ;; '"<<".

(** The [import\s+java\.] alternative of the Java pattern. *)
Definition re_import_java : regex := '"import" ;; Plus \s ;; '"java.".

(** The alternatives of the Java pattern other than [import\s+java\.]. *)
Definition re_java_only : regex :=
  '"public" ;; Plus \s ;; '"class"
  <|> '"System.out.println".

Local Close Scope re_scope.

(** The text without its line feeds. *)
Definition without_lf (s : jsstring) : jsstring :=
  filter (fun c => negb (N.eqb c 10)) s.

(** The number of line feeds of the text. *)
Definition count_lf (s : jsstring) : nat :=
  length (filter (fun c => N.eqb c 10) s).

(** * Properties *)

(** ** Strings and arrays *)

Section StringFacts.

Lemma startsWith_iff (sub s : jsstring) :
  startsWith s sub = true <-> exists b, s = sub ++ b.
Proof.
  revert s; induction sub as [|c sub IH]; intros s.
  - split; [exists s; reflexivity | destruct s; reflexivity].
  - destruct s as [|d s]; simpl;
      [split; [discriminate | intros [b Hb]; discriminate]|].
    rewrite andb_true_iff, N.eqb_eq, IH; split.
    + intros [-> [b ->]]; exists b; reflexivity.
    + intros [b Hb]; inversion Hb; subst; split; [reflexivity | exists b; reflexivity].
Qed.

Lemma includes_iff (s sub : jsstring) :
  includes s sub = true <-> contains s sub.
Proof.
  unfold contains; induction s as [|d s IH].
  - cbn [includes]; rewrite orb_false_r, startsWith_iff; split.
    + intros [b Hb]; exists [], b; exact Hb.
    + intros [a [b Hab]]; destruct a; [exists b; exact Hab | discriminate].
  - cbn [includes]; rewrite orb_true_iff, IH, startsWith_iff; split.
    + intros [[b Hb] | [a [b Hab]]].
      * exists [], b; exact Hb.
      * exists (d :: a), b; rewrite Hab; reflexivity.
    + intros [[|x a] [b Hab]].
      * left; exists b; exact Hab.
      * right; inversion Hab; subst; exists a, b; reflexivity.
Qed.

Lemma has_loop_iff (s : jsstring) : has_loop s = true <-> mentions_loop s.
Proof.
  unfold has_loop, mentions_loop.
  rewrite orb_true_iff, !includes_iff; reflexivity.
Qed.

Lemma has_loop_false_iff (s : jsstring) : has_loop s = false <-> ~ mentions_loop s.
Proof.
  rewrite <- has_loop_iff; destruct (has_loop s); split; congruence.
Qed.

Lemma dropWhile_nil_iff (f : N -> bool) (s : jsstring) :
  dropWhile f s = [] <-> forall c, In c s -> f c = true.
Proof.
  induction s as [|c s IH]; simpl.
  - split; [intros _ c [] | reflexivity].
  - destruct (f c) eqn:E.
    + rewrite IH; split.
      * intros H x [<- | Hx]; auto.
      * intros H x Hx; apply H; right; exact Hx.
    + split; [discriminate | intros H; rewrite (H c) in E; [discriminate | left; reflexivity]].
Qed.

Lemma dropWhile_all (f : N -> bool) (s : jsstring) :
  (forall c, In c s -> f c = true) -> dropWhile f s = [].
Proof. apply dropWhile_nil_iff. Qed.

Lemma dropWhile_incl (f : N -> bool) (s : jsstring) (c : N) :
  In c (dropWhile f s) -> In c s.
Proof.
  induction s as [|d s IH]; simpl; [tauto|].
  destruct (f d); [right; auto | simpl; tauto].
Qed.

Lemma dropWhile_head (f : N -> bool) (s : jsstring) (c : N) (t : jsstring) :
  dropWhile f s = c :: t -> f c = false.
Proof.
  induction s as [|d s IH]; simpl; [discriminate|].
  destruct (f d) eqn:E; [exact IH|].
  intros H; inversion H; subst; exact E.
Qed.

(** The trimmed text is empty exactly when the text is all white space. *)
Lemma trim_nil_iff (s : jsstring) :
  trim s = [] <-> forall c, In c s -> isWhiteSpace c = true.
Proof.
  unfold trim; split.
  - intros H.
    apply (f_equal (@rev N)) in H; rewrite rev_involutive in H; simpl in H.
    apply dropWhile_nil_iff.
    destruct (dropWhile isWhiteSpace s) as [|c t] eqn:E; [reflexivity|].
    pose proof (dropWhile_head _ _ E) as Hc.
    rewrite dropWhile_nil_iff in H.
    rewrite (H c) in Hc; [discriminate|].
    apply -> in_rev; left; reflexivity.
  - intros H. rewrite (dropWhile_all _ _ H); reflexivity.
Qed.

Lemma dropWhile_app_stop (f : N -> bool) (a : jsstring) (c : N) (t : jsstring) :
  f c = false -> dropWhile f (a ++ c :: t) = dropWhile f a ++ c :: t.
Proof.
  intros Hc; induction a as [|x a IH]; simpl.
  - rewrite Hc; reflexivity.
  - destruct (f x); [exact IH | reflexivity].
Qed.

Lemma dropWhile_suffix (f : N -> bool) (s : jsstring) :
  exists a, s = a ++ dropWhile f s.
Proof.
  induction s as [|c s [a IH]]; simpl; [exists []; reflexivity|].
  destruct (f c); [|exists []; reflexivity].
  exists (c :: a); simpl; rewrite <- IH; reflexivity.
Qed.

(** The trimmed text is a piece of the text. *)
Lemma trim_inside (s : jsstring) : exists a b, s = a ++ trim s ++ b.
Proof.
  unfold trim.
  destruct (dropWhile_suffix isWhiteSpace s) as [a Ha].
  destruct (dropWhile_suffix isWhiteSpace (rev (dropWhile isWhiteSpace s))) as [b Hb].
  exists a, (rev b).
  rewrite <- rev_app_distr, <- Hb, rev_involutive; exact Ha.
Qed.

(** A piece of the text that starts and ends with characters other than
    white space survives trimming. *)
Lemma trim_keeps (a b t t' : jsstring) (c d : N) :
  isWhiteSpace c = false -> isWhiteSpace d = false ->
  c :: t = t' ++ [d] ->
  exists a' b', trim (a ++ (c :: t) ++ b) = a' ++ (c :: t) ++ b'.
Proof.
  intros Hc Hd Hw; unfold trim.
  exists (dropWhile isWhiteSpace a), (rev (dropWhile isWhiteSpace (rev b))).
  change (a ++ (c :: t) ++ b) with (a ++ c :: (t ++ b)).
  rewrite dropWhile_app_stop by exact Hc.
  change (dropWhile isWhiteSpace a ++ c :: t ++ b)
    with (dropWhile isWhiteSpace a ++ (c :: t) ++ b).
  rewrite Hw, !rev_app_distr; simpl.
  rewrite <- app_assoc; simpl.
  rewrite dropWhile_app_stop by exact Hd.
  rewrite rev_app_distr; simpl.
  rewrite rev_app_distr, !rev_involutive, <- !app_assoc; reflexivity.
Qed.

End StringFacts.

Section ArrayFacts.

Variable A : Type.
Variable p : A -> bool.

Lemma findIndex_from_none (l : list A) (k : nat) :
  (forall x, In x l -> p x = false) -> findIndex_from p l k = (-1)%Z.
Proof.
  revert k; induction l as [|x l IH]; intros k H; simpl; [reflexivity|].
  rewrite (H x (or_introl eq_refl)).
  apply IH; intros y Hy; apply H; right; exact Hy.
Qed.

Lemma findIndex_from_first (l : list A) (k i : nat) (x : A) :
  nth_error l i = Some x -> p x = true ->
  (forall j y, j < i -> nth_error l j = Some y -> p y = false) ->
  findIndex_from p l k = Z.of_nat (k + i).
Proof.
  revert k i; induction l as [|a l IH]; intros k i Hi Hx Hbefore.
  - destruct i; discriminate.
  - destruct i as [|i]; simpl in *.
    + inversion Hi; subst; rewrite Hx, Nat.add_0_r; reflexivity.
    + rewrite (Hbefore 0 a (Nat.lt_0_succ i) eq_refl).
      rewrite (IH (S k) i Hi Hx); [f_equal; lia|].
      intros j y Hj Hy; apply (Hbefore (S j) y); [lia | exact Hy].
Qed.

Lemma findIndex_from_range (l : list A) (k : nat) :
  findIndex_from p l k = (-1)%Z \/
  (Z.of_nat k <= findIndex_from p l k < Z.of_nat (k + length l))%Z.
Proof.
  revert k; induction l as [|a l IH]; intros k; simpl; [left; reflexivity|].
  destruct (p a); [right; lia|].
  destruct (IH (S k)) as [H | H]; [left; exact H | right; lia].
Qed.

(** When some element satisfies the test, [findIndex] does not answer -1. *)
Lemma findIndex_from_found (l : list A) (k : nat) (x : A) :
  In x l -> p x = true -> (Z.of_nat k <= findIndex_from p l k)%Z.
Proof.
  revert k; induction l as [|a l IH]; intros k Hin Hx; simpl; [destruct Hin|].
  destruct (p a) eqn:E; [lia|].
  destruct Hin as [-> | Hin]; [congruence|].
  specialize (IH (S k) Hin Hx); lia.
Qed.

End ArrayFacts.

(** ** The two passes, as lists *)

Section Passes.

Lemma inner_forEach (l : jsstring) (lineNumber : Z) (rs : list Rule) (k : nat)
    (st : list ErrorType * list jsstring) :
  forEach_from
    (fun (rule : Rule) (_ : nat) (st : list ErrorType * list jsstring) =>
       if test (Rule.regex rule) l
       then (push (fst st) (finding_of l lineNumber rule), snd st)
       else st)
    rs k st
  = (fst st ++ line_findings rs l lineNumber, snd st).
Proof.
  unfold line_findings.
  revert k st; induction rs as [|r rs IH]; intros k [es ts]; simpl.
  - rewrite app_nil_r; reflexivity.
  - rewrite IH. destruct (test (Rule.regex r) l); simpl; [|reflexivity].
    unfold push; rewrite <- app_assoc; reflexivity.
Qed.

Lemma outer_forEach (rs : list Rule) (lines : list jsstring) (k : nat)
    (errors : list ErrorType) (tips : list jsstring) :
  forEach_from
    (fun (l : jsstring) (index : nat) (st : list ErrorType * list jsstring) =>
       forEach
         (fun (rule : Rule) (_ : nat) (st : list ErrorType * list jsstring) =>
            if test (Rule.regex rule) l
            then (push (fst st) (finding_of l (Z.of_nat index + 1) rule), snd st)
            else st)
         rs st)
    lines k (errors, tips)
  = (errors ++ rule_findings rs lines k, tips).
Proof.
  revert k errors; induction lines as [|l lines IH]; intros k errors; simpl.
  - rewrite app_nil_r; reflexivity.
  - unfold forEach at 2. rewrite inner_forEach; simpl.
    rewrite IH, app_assoc; reflexivity.
Qed.

Lemma analyzeCodeByRules_eq (lines : list jsstring) (language : Language)
    (errors : list ErrorType) (tips : list jsstring) :
  analyzeCodeByRules lines language errors tips
  = (errors ++ rule_findings (langRules_of language) lines 0, tips).
Proof.
  unfold analyzeCodeByRules; fold (langRules_of language).
  unfold forEach at 1. exact (outer_forEach _ _ _ _ _).
Qed.

Lemma long_line_forEach (lines : list jsstring) (k : nat) (tips : list jsstring) :
  forEach_from
    (fun (l : jsstring) (index : nat) (tips : list jsstring) =>
       if 100 <? length l
       then push tips (long_line_tip (index + 1) (length l))
       else tips)
    lines k tips
  = tips ++ long_line_tips lines k.
Proof.
  revert k tips; induction lines as [|l lines IH]; intros k tips; simpl.
  - rewrite app_nil_r; reflexivity.
  - rewrite IH. destruct (100 <? length l); simpl; [|reflexivity].
    unfold push; rewrite <- app_assoc; reflexivity.
Qed.

Lemma analyzeGeneral_eq (lines : list jsstring)
    (errors : list ErrorType) (tips : list jsstring) :
  analyzeGeneral lines errors tips
  = (errors ++ (if has_loop (join lines) then [loop_finding lines] else []),
     tips ++ long_line_tips lines 0).
Proof.
  unfold analyzeGeneral, forEach.
  rewrite long_line_forEach.
  destruct (has_loop (join lines)); [reflexivity | rewrite app_nil_r; reflexivity].
Qed.

Lemma analyze_eq (lines : list jsstring) (language : Language) :
  analyze lines language
  = (rule_findings (langRules_of language) lines 0
       ++ (if has_loop (join lines) then [loop_finding lines] else []),
     long_line_tips lines 0).
Proof.
  unfold analyze. rewrite analyzeCodeByRules_eq, analyzeGeneral_eq; reflexivity.
Qed.

(** The two passes only append to the arrays they are given. *)
Lemma passes_append (lines : list jsstring) (language : Language)
    (errors : list ErrorType) (tips : list jsstring) :
  (let '(errors', tips') := analyzeCodeByRules lines language errors tips in
   analyzeGeneral lines errors' tips')
  = (errors ++ fst (analyze lines language), tips ++ snd (analyze lines language)).
Proof.
  rewrite analyze_eq, analyzeCodeByRules_eq, analyzeGeneral_eq; cbn [fst snd].
  rewrite app_assoc; reflexivity.
Qed.

End Passes.

(** ** Line numbers and severities of Findings *)

Section LineNumbers.

Lemma rule_findings_line (rs : list Rule) (lines : list jsstring) (k : nat)
    (f : ErrorType) :
  In f (rule_findings rs lines k) ->
  (Z.of_nat k + 1 <= line f <= Z.of_nat (k + length lines))%Z.
Proof.
  revert k; induction lines as [|l lines IH]; intros k; simpl; [tauto|].
  rewrite in_app_iff; intros [H | H].
  - unfold line_findings in H; apply in_map_iff in H.
    destruct H as [r [<- _]]; simpl; lia.
  - specialize (IH (S k) H); lia.
Qed.

(** No configured rule has the severity of the infinite-loop Finding. *)
Lemma rules_not_logical (language : Language) (r : Rule) :
  In r (langRules_of language) -> Rule.type r <> logical.
Proof.
  destruct language; cbn; intros H;
    repeat (destruct H as [<- | H]; [discriminate|]); destruct H.
Qed.

Lemma rule_findings_type (rs : list Rule) (lines : list jsstring) (k : nat)
    (f : ErrorType) :
  In f (rule_findings rs lines k) -> exists r, In r rs /\ type f = Rule.type r.
Proof.
  revert k; induction lines as [|l lines IH]; intros k; simpl; [tauto|].
  rewrite in_app_iff; intros [H | H]; [|exact (IH _ H)].
  unfold line_findings in H; apply in_map_iff in H.
  destruct H as [r [<- Hr]]; apply filter_In in Hr.
  exists r; split; [tauto | reflexivity].
Qed.

Lemma rule_findings_no_logical (language : Language) (lines : list jsstring) (k : nat) :
  filter is_logical (rule_findings (langRules_of language) lines k) = [].
Proof.
  destruct (filter is_logical (rule_findings (langRules_of language) lines k))
    as [|f fs] eqn:E; [reflexivity|].
  assert (Hf : In f (filter is_logical (rule_findings (langRules_of language) lines k)))
    by (rewrite E; left; reflexivity).
  apply filter_In in Hf; destruct Hf as [Hin Hlog].
  apply rule_findings_type in Hin; destruct Hin as [r [Hr Ht]].
  apply rules_not_logical in Hr.
  unfold is_logical in Hlog; rewrite Ht in Hlog.
  destruct (Rule.type r); simpl in Hlog; congruence.
Qed.

(** Every Finding of a per-language rule is on a line of the text. *)
Lemma analyzeCodeByRules_line (lines : list jsstring) (language : Language)
    (f : ErrorType) :
  In f (fst (analyzeCodeByRules lines language [] [])) ->
  (1 <= line f <= Z.of_nat (length lines))%Z.
Proof.
  rewrite analyzeCodeByRules_eq; simpl; intros H.
  apply rule_findings_line in H; simpl in H; lia.
Qed.

(** The infinite-loop Finding is on line 0 or on a line of the text, and on
    a line of the text as soon as some line has one of the literals. *)
Lemma loop_finding_line (lines : list jsstring) :
  (0 <= line (loop_finding lines) <= Z.of_nat (length lines))%Z.
Proof.
  unfold loop_finding, findIndex; simpl.
  destruct (@findIndex_from_range _ has_loop lines 0) as [-> | H]; simpl in *; lia.
Qed.

Lemma loop_finding_line_found (lines : list jsstring) (l : jsstring) :
  In l lines -> has_loop l = true ->
  (1 <= line (loop_finding lines) <= Z.of_nat (length lines))%Z.
Proof.
  intros Hin Hl; pose proof (loop_finding_line lines) as Hr.
  pose proof (@findIndex_from_found _ has_loop lines 0 l Hin Hl) as H.
  unfold loop_finding, findIndex in *; simpl in *; lia.
Qed.

Lemma long_line_tips_In (lines : list jsstring) (k : nat) (t : jsstring) :
  In t (long_line_tips lines k) <->
  exists i l, nth_error lines i = Some l /\ 100 < length l
              /\ t = long_line_tip (k + i + 1) (length l).
Proof.
  revert k; induction lines as [|l lines IH]; intros k; simpl.
  - split; [tauto | intros [[|i] [l [H _]]]; discriminate].
  - rewrite in_app_iff, IH; split.
    + intros [H | [i [l' [Hi [Hlen ->]]]]].
      * destruct (100 <? length l) eqn:E; [|destruct H].
        destruct H as [<- | []]; apply Nat.ltb_lt in E.
        exists 0, l; rewrite Nat.add_0_r; auto.
      * exists (S i), l'; repeat split; auto; f_equal; lia.
    + intros [[|i] [l' [Hi [Hlen ->]]]]; simpl in Hi.
      * inversion Hi; subst; left.
        apply Nat.ltb_lt in Hlen; rewrite Hlen, Nat.add_0_r; left; reflexivity.
      * right; exists i, l'; repeat split; auto; f_equal; lia.
Qed.

End LineNumbers.

(** ** What the matcher computes *)

Section Denotation.

Lemma advance_app (prev : option N) (u v : jsstring) :
  advance prev (u ++ v) = advance (advance prev u) v.
Proof. apply fold_left_app. Qed.

Lemma reads_nil (p : pos) : reads p [] p.
Proof. split; reflexivity. Qed.

Lemma reads_trans (p q r : pos) (u v : jsstring) :
  reads p u q -> reads q v r -> reads p (u ++ v) r.
Proof.
  intros [H1 H2] [H3 H4]; split.
  - rewrite H1, H3, app_assoc; reflexivity.
  - rewrite H4, H2, advance_app; reflexivity.
Qed.

Lemma reads_length (p q : pos) (w : jsstring) :
  reads p w q -> length (snd p) = length w + length (snd q).
Proof. intros [H _]; rewrite H, length_app; reflexivity. Qed.

Lemma eat_sound (s : jsstring) (p q : pos) :
  In q (eat s p) -> reads p s q.
Proof.
  revert p; induction s as [|c s IH]; intros [prev rest]; simpl.
  - intros [<- | []]; apply reads_nil.
  - destruct rest as [|x t]; [intros []|].
    destruct (N.eqb_spec x c) as [-> | _]; [|intros []].
    intros H; apply IH in H.
    apply (@reads_trans (prev, c :: t) (Some c, t) q [c] s); [split; reflexivity | exact H].
Qed.

Lemma eat_complete (s : jsstring) (prev : option N) (rest : jsstring) :
  In (advance prev s, rest) (eat s (prev, s ++ rest)).
Proof.
  revert prev; induction s as [|c s IH]; intros prev; simpl.
  - left; reflexivity.
  - rewrite N.eqb_refl; apply IH.
Qed.

Lemma rounds_self (step : pos -> list pos) (fuel : nat) (p : pos) :
  In p (rounds step fuel p).
Proof. destruct fuel; left; reflexivity. Qed.

Lemma rounds_more_fuel (step : pos -> list pos) (n m : nat) (p q : pos) :
  n <= m -> In q (rounds step n p) -> In q (rounds step m p).
Proof.
  revert m p; induction n as [|n IH]; intros m p Hnm; simpl.
  - intros [<- | []]; apply rounds_self.
  - destruct m as [|m]; [lia|]; simpl.
    intros [H | H]; [left; exact H | right].
    apply in_flat_map in H; destruct H as [q1 [Hq1 H]]; apply in_flat_map.
    exists q1; split; [exact Hq1|].
    destruct (length (snd q1) <? length (snd p)); [|exact H].
    apply IH; [lia | exact H].
Qed.

Lemma rounds_sound (a : regex) (fuel : nat) :
  (forall p q, In q (ends a p) -> exists w, reads p w q /\ lang a w) ->
  forall p q, In q (rounds (ends a) fuel p) ->
              exists w, reads p w q /\ lang (Star a) w.
Proof.
  intros Ha; induction fuel as [|n IH]; intros p q; simpl.
  - intros [<- | []]; exists []; split; [apply reads_nil | constructor].
  - intros [<- | H]; [exists []; split; [apply reads_nil | constructor]|].
    apply in_flat_map in H; destruct H as [q1 [Hq1 H]].
    destruct (length (snd q1) <? length (snd p)) eqn:E; [|destruct H].
    apply Nat.ltb_lt in E.
    destruct (Ha p q1 Hq1) as [u [Hu Hlu]].
    destruct (IH q1 q H) as [v [Hv Hlv]].
    exists (u ++ v); split; [exact (reads_trans Hu Hv)|].
    apply lang_Star_more; [exact Hlu | | exact Hlv].
    intros ->; apply reads_length in Hu; simpl in Hu.
    rewrite Hu in E; exact (Nat.lt_irrefl _ E).
Qed.

(** Every end position that the matcher reports is reached by reading a
    word of the pattern. *)
Lemma ends_sound (r : regex) :
  plain r = true ->
  forall p q, In q (ends r p) -> exists w, reads p w q /\ lang r w.
Proof.
  induction r as [s|k|a IHa b IHb|a IHa b IHb|a IHa|a IHa| | | |a IHa];
    simpl; intros Hr p q H; try discriminate.
  - exists s; split; [exact (@eat_sound _ _ _ H) | constructor].
  - destruct p as [prev [|x t]]; simpl in H; [destruct H|].
    destruct (member k x) eqn:E; [|destruct H].
    destruct H as [<- | []]; exists [x]; split; [split; reflexivity | constructor; exact E].
  - apply andb_true_iff in Hr; destruct Hr as [Hra Hrb].
    apply in_flat_map in H; destruct H as [q1 [Hq1 H]].
    destruct (IHa Hra p q1 Hq1) as [u [Hu Hlu]].
    destruct (IHb Hrb q1 q H) as [v [Hv Hlv]].
    exists (u ++ v); split; [exact (reads_trans Hu Hv) | constructor; assumption].
  - apply andb_true_iff in Hr; destruct Hr as [Hra Hrb].
    apply in_app_iff in H; destruct H as [H | H].
    + destruct (IHa Hra p q H) as [u [Hu Hlu]]; exists u; split; [exact Hu|].
      apply lang_Alt_l; exact Hlu.
    + destruct (IHb Hrb p q H) as [u [Hu Hlu]]; exists u; split; [exact Hu|].
      apply lang_Alt_r; exact Hlu.
  - exact (@rounds_sound a _ (IHa Hr) _ _ H).
  - apply in_flat_map in H; destruct H as [q1 [Hq1 H]].
    destruct (IHa Hr p q1 Hq1) as [u [Hu Hlu]].
    destruct (@rounds_sound a _ (IHa Hr) _ _ H) as [v [Hv Hlv]].
    exists (u ++ v); split; [exact (reads_trans Hu Hv) | constructor; assumption].
Qed.

(** Every word of the pattern is read by the matcher, wherever it stands. *)
Lemma ends_complete (r : regex) (w : jsstring) :
  lang r w ->
  forall prev rest, In (advance prev w, rest) (ends r (prev, w ++ rest)).
Proof.
  induction 1 as [s|k c Hc|a b u v _ IHu _ IHv|a b u _ IH|a b u _ IH
                 |a|a u v _ IHu Hne _ IHv|a u v _ IHu _ IHv];
    intros prev rest; simpl.
  - apply eat_complete.
  - rewrite Hc; left; reflexivity.
  - apply in_flat_map; exists (advance prev u, v ++ rest); split.
    + rewrite <- app_assoc; apply IHu.
    + rewrite advance_app; apply IHv.
  - apply in_app_iff; left; apply IH.
  - apply in_app_iff; right; apply IH.
  - apply rounds_self.
  - assert (Hlen : length (v ++ rest) < length ((u ++ v) ++ rest)).
    { destruct u; [congruence|]; rewrite !length_app; simpl; lia. }
    destruct (length ((u ++ v) ++ rest)) as [|n] eqn:En; [lia|].
    cbn [rounds]; right.
    apply in_flat_map; exists (advance prev u, v ++ rest); split.
    + rewrite <- app_assoc; apply IHu.
    + cbn [snd]; rewrite En.
      apply Nat.ltb_lt in Hlen; rewrite Hlen; apply Nat.ltb_lt in Hlen.
      rewrite advance_app.
      apply (@rounds_more_fuel _ (length (v ++ rest))); [lia | apply IHv].
  - apply in_flat_map; exists (advance prev u, v ++ rest); split.
    + rewrite <- app_assoc; apply IHu.
    + rewrite advance_app; apply IHv.
Qed.

Lemma positions_In (prev : option N) (s : jsstring) (p : pos) :
  In p (positions prev s) <-> exists a, reads (prev, s) a p.
Proof.
  revert prev; induction s as [|c s IH]; intros prev; simpl.
  - split.
    + intros [<- | []]; exists []; apply reads_nil.
    + intros [a [Ha Hb]]; simpl in *.
      destruct a; [|discriminate]; simpl in *.
      left; destruct p; simpl in *; subst; reflexivity.
  - rewrite IH; split.
    + intros [<- | [a Ha]]; [exists []; apply reads_nil|].
      exists (c :: a); destruct Ha as [Ha Hb]; simpl in *; split; simpl;
        [rewrite Ha; reflexivity | exact Hb].
    + intros [[|x a] [Ha Hb]]; simpl in *.
      * left; destruct p; simpl in *; subst; reflexivity.
      * right; inversion Ha; subst; exists a; split; [reflexivity | exact Hb].
Qed.

(** [test] on a plain pattern: some substring of the text is a word of the
    pattern. *)
Lemma test_plain_iff (r : regex) (s : jsstring) :
  plain r = true ->
  (test r s = true <-> exists a w b, s = a ++ w ++ b /\ lang r w).
Proof.
  intros Hr; unfold test; rewrite existsb_exists; split.
  - intros [p [Hp Hm]]; apply positions_In in Hp; destruct Hp as [a [Ha _]].
    unfold matchesAt in Hm; destruct (ends r p) as [|q l] eqn:E; [discriminate|].
    destruct (@ends_sound r Hr p q) as [w [[Hw _] Hl]]; [rewrite E; left; reflexivity|].
    exists a, w, (snd q); simpl in Ha; rewrite Ha, Hw; auto.
  - intros [a [w [b [-> Hl]]]].
    exists (advance None a, w ++ b); split.
    + apply positions_In; exists a; split; reflexivity.
    + pose proof (@ends_complete _ _ Hl (advance None a) b) as H.
      unfold matchesAt; destruct (ends r (advance None a, w ++ b)); [destruct H | reflexivity].
Qed.

End Denotation.

(** ** Trimming and matching *)

Section Trimming.

Lemma solid_start_word (r : regex) (w : jsstring) :
  lang r w -> solid_start r = true ->
  exists c t, w = c :: t /\ isWhiteSpace c = false.
Proof.
  induction 1 as [s|k c Hc|a b u v _ IHu _ _|a b u _ IH|a b u _ IH
                 |a|a u v _ _ _ _ _|a u v _ _ _ _];
    simpl; intros Hs; try discriminate.
  - destruct s as [|c s]; [discriminate|].
    exists c, s; split; [reflexivity | apply negb_true_iff; exact Hs].
  - destruct (IHu Hs) as [c [t [-> Hc]]]; exists c, (t ++ v); auto.
  - apply andb_true_iff in Hs; apply IH; tauto.
  - apply andb_true_iff in Hs; apply IH; tauto.
Qed.

Lemma solid_end_word (r : regex) (w : jsstring) :
  lang r w -> solid_end r = true ->
  exists t c, w = t ++ [c] /\ isWhiteSpace c = false.
Proof.
  induction 1 as [s|k c Hc|a b u v _ _ _ IHv|a b u _ IH|a b u _ IH
                 |a|a u v _ _ _ _ _|a u v _ _ _ _];
    simpl; intros Hs; try discriminate.
  - destruct (rev s) as [|c l] eqn:E; [discriminate|].
    exists (rev l), c; split; [|apply negb_true_iff; exact Hs].
    rewrite <- (rev_involutive s), E; reflexivity.
  - destruct (IHv Hs) as [t [c [-> Hc]]]; exists (u ++ t), c.
    rewrite app_assoc; auto.
  - apply andb_true_iff in Hs; apply IH; tauto.
  - apply andb_true_iff in Hs; apply IH; tauto.
Qed.

(** For a plain pattern whose words start and end with characters other
    than white space, matching the text and matching the trimmed text are
    the same. *)
Lemma test_trim (r : regex) (s : jsstring) :
  plain r = true -> solid_start r = true -> solid_end r = true ->
  test r (trim s) = test r s.
Proof.
  intros Hp Hs He.
  apply eq_true_iff_eq; rewrite !test_plain_iff by exact Hp; split.
  - intros [a [w [b [Hab Hl]]]].
    destruct (trim_inside s) as [x [y Hxy]].
    exists (x ++ a), w, (b ++ y); split; [|exact Hl].
    rewrite Hxy at 1; rewrite Hab, <- !app_assoc; reflexivity.
  - intros [a [w [b [-> Hl]]]].
    destruct (solid_start_word Hl Hs) as [c [t [-> Hc]]].
    destruct (solid_end_word Hl He) as [t' [d [Hw Hd]]].
    destruct (@trim_keeps a b t t' c d Hc Hd Hw) as [a' [b' H]].
    exists a', (c :: t), b'; auto.
Qed.

End Trimming.

(** ** The loop of the detector *)

Section Detector.

Lemma first_match_none (ps : list (regex * Language)) (s : jsstring) :
  first_match ps s = None <-> forall p l, In (p, l) ps -> test p s = false.
Proof.
  induction ps as [|[p l] ps IH]; simpl.
  - split; [intros _ p l [] | reflexivity].
  - destruct (test p s) eqn:E.
    + split; [discriminate|].
      intros H; rewrite (H p l (or_introl eq_refl)) in E; discriminate.
    + rewrite IH; split.
      * intros H q m [Hq | Hq]; [inversion Hq; subst; exact E | exact (H q m Hq)].
      * intros H q m Hq; apply (H q m); right; exact Hq.
Qed.

Lemma first_match_some (ps : list (regex * Language)) (s : jsstring) (l : Language) :
  first_match ps s = Some l -> exists p, In (p, l) ps /\ test p s = true.
Proof.
  induction ps as [|[p m] ps IH]; simpl; [discriminate|].
  destruct (test p s) eqn:E.
  - intros H; inversion H; subst; exists p; auto.
  - intros H; destruct (IH H) as [q [Hq Ht]]; exists q; auto.
Qed.

(** First match wins: the language of the first pattern of the list that
    matches. *)
Lemma first_match_first (ps : list (regex * Language)) (s : jsstring)
    (i : nat) (p : regex) (l : Language) :
  nth_error ps i = Some (p, l) -> test p s = true ->
  (forall j q m, j < i -> nth_error ps j = Some (q, m) -> test q s = false) ->
  first_match ps s = Some l.
Proof.
  revert i; induction ps as [|[q m] ps IH]; intros i Hi Hp Hbefore.
  - destruct i; discriminate.
  - destruct i as [|i]; simpl in *.
    + inversion Hi; subst; rewrite Hp; reflexivity.
    + rewrite (Hbefore 0 q m (Nat.lt_0_succ i) eq_refl).
      apply (IH i Hi Hp).
      intros j q' m' Hj Hq'; apply (Hbefore (S j) q' m'); [lia | exact Hq'].
Qed.

Lemma patterns_not_Unknown (p : regex) : ~ In (p, Unknown) patterns.
Proof.
  cbn; intros H; repeat (destruct H as [H | H]; [discriminate|]); exact H.
Qed.

Lemma first_match_position (ps : list (regex * Language)) (s : jsstring)
    (l : Language) :
  first_match ps s = Some l ->
  exists i p,
    nth_error ps i = Some (p, l) /\ test p s = true
    /\ forall j q m, j < i -> nth_error ps j = Some (q, m) -> test q s = false.
Proof.
  induction ps as [|[q m] ps IH]; simpl; [discriminate|].
  destruct (test q s) eqn:E.
  - intros H; inversion H; subst; exists 0, q; repeat split; auto.
    intros j q' m' Hj; lia.
  - intros H; destruct (IH H) as [i [p [Hi [Ht Hbefore]]]].
    exists (S i), p; repeat split; auto.
    intros [|j] q' m' Hj Hq'; simpl in Hq'.
    + inversion Hq'; subst; exact E.
    + apply (Hbefore j q' m'); [lia | exact Hq'].
Qed.

(** No pattern of the list matches the empty text. *)
Lemma patterns_need_text (p : regex) (l : Language) :
  In (p, l) patterns -> test p [] = false.
Proof.
  cbn; intros H.
  repeat (destruct H as [H | H]; [inversion H; subst; vm_compute; reflexivity|]).
  destruct H.
Qed.

(** The patterns of the list have no assertion. *)
Lemma patterns_plain (p : regex) (l : Language) :
  In (p, l) patterns -> plain p = true.
Proof.
  cbn; intros H.
  repeat (destruct H as [H | H]; [inversion H; subst; reflexivity|]).
  destruct H.
Qed.

(** A plain pattern that matches the trimmed text matches the text. *)
Lemma test_plain_trim (r : regex) (s : jsstring) :
  plain r = true -> test r (trim s) = true -> test r s = true.
Proof.
  intros Hp; rewrite !test_plain_iff by exact Hp.
  intros [a [w [b [Hab Hl]]]].
  destruct (trim_inside s) as [x [y Hxy]].
  exists (x ++ a), w, (b ++ y); split; [|exact Hl].
  rewrite Hxy at 1; rewrite Hab, <- !app_assoc; reflexivity.
Qed.

Lemma pattern_of_JavaScript (i : nat) (p : regex) :
  nth_error patterns i = Some (p, JavaScript) -> i = 0 /\ p = pat_JavaScript.
Proof.
  do 9 (destruct i as [|i]; [cbn; intros H; inversion H; auto|]).
  destruct i; discriminate.
Qed.

(** The answer of [detectLanguage], when it is a language: the tag of the
    first pattern of the list that matches the trimmed text. *)
Lemma detectLanguage_first (code : jsstring) (l : Language) :
  l <> Unknown ->
  (detectLanguage code = l <->
   exists i p,
     nth_error patterns i = Some (p, l)
     /\ test p (trim code) = true
     /\ forall j q m, j < i -> nth_error patterns j = Some (q, m) ->
                      test q (trim code) = false).
Proof.
  intros Hl; unfold detectLanguage; split.
  - destruct (trim code) as [|c t] eqn:E; cbn [falsy]; [congruence|].
    destruct (first_match patterns (c :: t)) as [m|] eqn:Em; [|congruence].
    intros ->; apply first_match_position; exact Em.
  - intros [i [p [Hi [Ht Hbefore]]]].
    destruct (trim code) as [|c t] eqn:E; cbn [falsy].
    + apply nth_error_In in Hi; rewrite (patterns_need_text Hi) in Ht; discriminate.
    + rewrite (@first_match_first patterns (c :: t) i p l Hi Ht Hbefore); reflexivity.
Qed.

End Detector.

(** * The claims *)

(** C1 (the code breaks the invariant): every Finding should be on a line
    between 1 and the number of lines.  On the two lines [while(] and
    [true)] the joined text has the literal [while(true)], no single line
    has it, [findIndex] answers -1 and the Finding of the infinite-loop check
    is put on line 0, under every language; the same happens through
    [analyzeCode] on the text with a line feed between the two halves. *)
Theorem loop_finding_on_line_zero :
  (forall language,
     fst (analyze [str "while("; str "true)"] language)
     = [ {| line := 0;
            message := str "Potential infinite loop detected.";
            suggestion := str "Add a break condition.";
            type := logical;
            codeSnippet := None |} ])
  /\ split_lf split_loop_code = [str "while("; str "true)"]
  /\ map line
       (Component.errors
          (Component.analyzeCode
             {| Component.code := split_loop_code;
                Component.language := None;
                Component.errors := [];
                Component.tips := [];
                Component.isAnalyzing := false;
                Component.theme := Component.dark |}))
     = [0%Z].
Proof.
  split; [intros language; destruct language; vm_compute; reflexivity|].
  split; vm_compute; reflexivity.
Qed.

(** C2: when the joined lines contain [while(true)] or [for(;;)], the
    analysis has exactly one Finding of severity logical; it is on the line
    after the index of the first line that contains one of the two literals,
    and on line 0 when no line does.  When the joined lines contain neither
    literal there is no Finding of severity logical. *)
Theorem infinite_loop_finding (lines : list jsstring) (language : Language) :
  (mentions_loop (concat lines) ->
   exists f,
     filter is_logical (fst (analyze lines language)) = [f]
     /\ type f = logical
     /\ (forall i l,
           nth_error lines i = Some l -> mentions_loop l ->
           (forall j l', j < i -> nth_error lines j = Some l' -> ~ mentions_loop l') ->
           line f = (Z.of_nat i + 1)%Z)
     /\ ((forall l, In l lines -> ~ mentions_loop l) -> line f = 0%Z))
  /\ (~ mentions_loop (concat lines) ->
      filter is_logical (fst (analyze lines language)) = []).
Proof.
  rewrite analyze_eq; cbn [fst].
  rewrite filter_app, rule_findings_no_logical; cbn [app].
  split.
  - intros H; apply has_loop_iff in H; unfold join; rewrite H.
    exists (loop_finding lines); repeat split.
    + intros i l Hi Hl Hbefore; unfold loop_finding, findIndex; cbn [line].
      rewrite (@findIndex_from_first _ has_loop lines 0 i l Hi); [reflexivity | |].
      * apply has_loop_iff; exact Hl.
      * intros j y Hj Hy; apply has_loop_false_iff; exact (Hbefore j y Hj Hy).
    + intros Hnone; unfold loop_finding, findIndex; cbn [line].
      rewrite findIndex_from_none; [reflexivity|].
      intros x Hx; apply has_loop_false_iff; exact (Hnone x Hx).
  - intros H; apply has_loop_false_iff in H; unfold join; rewrite H; reflexivity.
Qed.

(** The example of the specification: the loop on the second of three
    lines. *)
Lemma infinite_loop_finding_witness :
  exists f,
    filter is_logical (fst (analyze [str "a"; str "while(true){}"; str "b"] Python)) = [f]
    /\ type f = logical /\ line f = 2%Z.
Proof.
  destruct (infinite_loop_finding [str "a"; str "while(true){}"; str "b"] Python)
    as [Hyes _].
  destruct Hyes as [f [Hf [Ht [Hfirst _]]]].
  - apply has_loop_iff; vm_compute; reflexivity.
  - exists f; split; [exact Hf|]; split; [exact Ht|].
    apply (Hfirst 1 (str "while(true){}")).
    + reflexivity.
    + apply has_loop_iff; vm_compute; reflexivity.
    + intros j l' Hj Hl'; apply has_loop_false_iff.
      destruct j as [|j]; [|lia].
      inversion Hl'; subst; vm_compute; reflexivity.
Defined.

(** C3 (amended): the patterns are tried on the trimmed text.
    [detectLanguage] answers Unknown when the trimmed text is empty, when no
    pattern of the list matches the trimmed text, and hence when no pattern
    matches the text; when the trimmed text is not empty and some pattern
    matches the trimmed text it answers a language other than Unknown.  The
    empty text and the text of three spaces give Unknown. *)
Theorem detect_unknown (code : jsstring) :
  (trim code = [] -> detectLanguage code = Unknown)
  /\ ((forall p l, In (p, l) patterns -> test p (trim code) = false) ->
      detectLanguage code = Unknown)
  /\ ((forall p l, In (p, l) patterns -> test p code = false) ->
      detectLanguage code = Unknown)
  /\ (trim code <> [] ->
      (exists p l, In (p, l) patterns /\ test p (trim code) = true) ->
      detectLanguage code <> Unknown)
  /\ detectLanguage (str "") = Unknown
  /\ detectLanguage (str "   ") = Unknown.
Proof.
  assert (Hnone : (forall p l, In (p, l) patterns -> test p (trim code) = false) ->
                  detectLanguage code = Unknown).
  { intros H; unfold detectLanguage; apply first_match_none in H; rewrite H.
    destruct (falsy (trim code)); reflexivity. }
  split; [unfold detectLanguage; intros ->; reflexivity|].
  split; [exact Hnone|].
  split.
  - intros H; apply Hnone; intros p l Hin.
    destruct (test p (trim code)) eqn:E; [|reflexivity].
    pose proof (@test_plain_trim p code (patterns_plain Hin) E) as Ht.
    rewrite (H p l Hin) in Ht; discriminate.
  - split; [|split; vm_compute; reflexivity].
    unfold detectLanguage; intros Hne [p [l [Hin Ht]]].
    destruct (trim code) as [|c t] eqn:E; [congruence|]; cbn [falsy].
    destruct (first_match patterns (c :: t)) as [m|] eqn:Em.
    + intros ->; apply first_match_some in Em.
      destruct Em as [q [Hq _]]; exact (patterns_not_Unknown Hq).
    + rewrite first_match_none in Em; rewrite (Em p l Hin) in Ht; discriminate.
Qed.

(** A text of white space only, a text that no pattern matches, and a text
    that a pattern matches. *)
Lemma detect_unknown_witness :
  detectLanguage (str "   ") = Unknown
  /\ detectLanguage (str "hello world") = Unknown
  /\ detectLanguage (str " hello world ") = Unknown
  /\ detectLanguage (str " def f(x): ") <> Unknown.
Proof.
  split; [|split; [|split]].
  - destruct (detect_unknown (str "   ")) as [H _].
    apply H; vm_compute; reflexivity.
  - destruct (detect_unknown (str "hello world")) as [_ [H _]].
    apply H; intros p l Hin; cbn in Hin.
    repeat (destruct Hin as [Hin | Hin];
            [inversion Hin; subst; vm_compute; reflexivity|]).
    destruct Hin.
  - destruct (detect_unknown (str " hello world ")) as [_ [_ [H _]]].
    apply H; intros p l Hin; cbn in Hin.
    repeat (destruct Hin as [Hin | Hin];
            [inversion Hin; subst; vm_compute; reflexivity|]).
    destruct Hin.
  - destruct (detect_unknown (str " def f(x): ")) as [_ [_ [_ [H _]]]].
    apply H.
    + vm_compute; discriminate.
    + exists pat_Python, Python; split; [cbn; tauto | vm_compute; reflexivity].
Defined.

(** C3 as it was stated fails: on [<div] followed by a space the trimmed
    text is not empty and the HTML pattern matches the text, through its
    alternative [<div\s], but trimming drops the space, no pattern matches
    what is left and the answer is Unknown. *)
Lemma detect_unknown_counterexample :
  trim (str "<div ") <> []
  /\ In (pat_HTML, HTML) patterns
  /\ test pat_HTML (str "<div ") = true
  /\ detectLanguage (str "<div ") = Unknown.
Proof.
  split; [vm_compute; discriminate|].
  split; [cbn; tauto|].
  split; vm_compute; reflexivity.
Qed.

(** C4: first match wins over the ordered list.  [detectLanguage] answers
    a language other than Unknown exactly when the pattern tagged with it
    matches the trimmed text and no pattern before it in the list does.  The
    JavaScript pattern is the first of the list: when it matches the text
    (equivalently the trimmed text, its words starting and ending with
    characters that trimming keeps), the answer is JavaScript whatever the
    later patterns do, and when it does not, the answer is not JavaScript.
    So the answer is JavaScript on [const x = 5] followed by an HTML-like
    piece that the HTML pattern matches. *)
Theorem detect_javascript_first (code : jsstring) :
  (forall l, l <> Unknown ->
     (detectLanguage code = l <->
      exists i p,
        nth_error patterns i = Some (p, l)
        /\ test p (trim code) = true
        /\ forall j q m, j < i -> nth_error patterns j = Some (q, m) ->
                         test q (trim code) = false))
  /\ (test pat_JavaScript code = true -> detectLanguage code = JavaScript)
  /\ (test pat_JavaScript (trim code) = true -> detectLanguage code = JavaScript)
  /\ (detectLanguage code = JavaScript -> test pat_JavaScript (trim code) = true)
  /\ hd_error patterns = Some (pat_JavaScript, JavaScript)
  /\ test pat_JavaScript js_with_html = true
  /\ test pat_HTML js_with_html = true
  /\ test pat_HTML (trim js_with_html) = true
  /\ detectLanguage js_with_html = JavaScript.
Proof.
  assert (HJS : JavaScript <> Unknown) by discriminate.
  assert (Htrim : test pat_JavaScript (trim code) = true ->
                  detectLanguage code = JavaScript).
  { intros H; apply (detectLanguage_first code HJS).
    exists 0, pat_JavaScript; split; [reflexivity|]; split; [exact H|].
    intros j q m Hj; lia. }
  split; [intros l Hl; apply detectLanguage_first; exact Hl|].
  split.
  { intros H; apply Htrim.
    rewrite test_trim; [exact H | reflexivity | reflexivity | reflexivity]. }
  split; [exact Htrim|].
  split; [|repeat split; vm_compute; reflexivity].
  intros H; apply (detectLanguage_first code HJS) in H.
  destruct H as [i [p [Hi [Ht _]]]].
  apply pattern_of_JavaScript in Hi; destruct Hi as [_ ->]; exact Ht.
Qed.

(** A declaration with white space around it and an HTML-like piece in it;
    and a text that the C and the C++ patterns both match, which gets the
    tag of the earlier one. *)
Lemma detect_javascript_first_witness :
  detectLanguage (str "  let y = <html>  ") = JavaScript
  /\ detectLanguage (str "#include <iostream>") = C.
Proof.
  split.
  - destruct (detect_javascript_first (str "  let y = <html>  ")) as [_ [H _]].
    apply H; vm_compute; reflexivity.
  - destruct (detect_javascript_first (str "#include <iostream>")) as [H _].
    apply (H C); [discriminate|].
    exists 2, pat_C; split; [reflexivity|]; split; [vm_compute; reflexivity|].
    intros j q m Hj Hq.
    destruct j as [|[|j]]; [| |lia]; inversion Hq; subst; vm_compute; reflexivity.
Defined.

(** C5: the rule table has an entry, possibly empty, for every language of
    the enumeration, so the lookup never answers [undefined]; and on no
    lines at all the analysis returns no Finding and no Tip, under every
    language.  ([analyze] is a total function: it returns on every input.) *)
Theorem analyze_empty (language : Language) :
  (exists rs, property rules language = Some rs)
  /\ In language all_languages
  /\ analyze [] language = ([], []).
Proof.
  split; [destruct language; cbn; eexists; reflexivity|].
  split; [destruct language; cbn; tauto|].
  rewrite analyze_eq; reflexivity.
Qed.

(** C6: the analysis is a function of the lines and the language alone.
    The two passes only append to the arrays they are given, and the timer
    callback of [analyzeCode] gives them two fresh arrays: the Findings and
    Tips it installs are those of [analyze] on the captured text and
    language whatever the component state was before (earlier Findings,
    Tips, language, theme).  Two runs from different prior states install
    the same Findings and Tips, a second run after a first one changes
    nothing, and two calls of [analyzeCode] on the same text that is not
    blank end with the same language, Findings and Tips. *)
Theorem analyze_deterministic (code0 : jsstring) (language : Language)
    (st1 st2 : Component.State) :
  let r1 := Component.onTimeout code0 language st1 in
  let r2 := Component.onTimeout code0 language st2 in
  (Component.errors r1, Component.tips r1) = analyze (split_lf code0) language
  /\ Component.errors r1 = Component.errors r2
  /\ Component.tips r1 = Component.tips r2
  /\ Component.onTimeout code0 language r1 = r1
  /\ (forall lines errors tips,
        (let '(errors', tips') := analyzeCodeByRules lines language errors tips in
         analyzeGeneral lines errors' tips')
        = (errors ++ fst (analyze lines language),
           tips ++ snd (analyze lines language)))
  /\ (Component.code st1 = Component.code st2 ->
      trim (Component.code st1) <> [] ->
      Component.language (Component.analyzeCode st1)
        = Component.language (Component.analyzeCode st2)
      /\ Component.errors (Component.analyzeCode st1)
        = Component.errors (Component.analyzeCode st2)
      /\ Component.tips (Component.analyzeCode st1)
        = Component.tips (Component.analyzeCode st2)).
Proof.
  unfold Component.onTimeout.
  destruct (analyze (split_lf code0) language) as [es ts]; simpl.
  do 4 (split; [reflexivity|]).
  split; [intros lines errors tips; apply passes_append|].
  intros Hcode Hne.
  unfold Component.analyzeCode, Component.analyzeCode_start, Component.onTimeout.
  rewrite <- Hcode.
  destruct (trim (Component.code st1)) as [|c t]; [congruence|]; cbn [falsy].
  destruct (analyze (split_lf (Component.code st1))
              (detectLanguage (Component.code st1))); simpl.
  repeat split.
Qed.

(** The same text analysed from the initial state and from a state that
    still shows the results of an earlier run. *)
Lemma analyze_deterministic_witness :
  Component.language (Component.analyzeCode state_fresh)
    = Component.language (Component.analyzeCode state_stale)
  /\ Component.errors (Component.analyzeCode state_fresh)
    = Component.errors (Component.analyzeCode state_stale)
  /\ Component.tips (Component.analyzeCode state_fresh)
    = Component.tips (Component.analyzeCode state_stale).
Proof.
  destruct (analyze_deterministic [] Unknown state_fresh state_stale)
    as [_ [_ [_ [_ [_ H]]]]].
  apply H; [reflexivity | vm_compute; discriminate].
Defined.

(** C7: the line [x == 5] under the JavaScript rules gives exactly one
    Finding; it is a warning whose suggestion recommends [===]. *)
Theorem loose_equality_finding :
  analyze [str "x == 5"] JavaScript
  = ([ {| line := 1;
          message := str "Loose equality (==) found.";
          suggestion := str "Use === for strict equality checks.";
          type := warning;
          codeSnippet := Some (str "x == 5") |} ],
     []).
Proof. vm_compute; reflexivity. Qed.

(** C8: a line longer than 100 characters gives the Tip that names its
    1-based line number and its length, under every language (and every Tip
    comes from such a line); a single line of 150 [a] gives exactly one Tip,
    which names line 1 and length 150, under every language. *)
Theorem long_line_tip_emitted (lines : list jsstring) (language : Language) :
  (forall i l,
     nth_error lines i = Some l -> 100 < length l ->
     In (str "Line " ++ Number_toString (i + 1) ++ str " is long ("
           ++ Number_toString (length l) ++ str " chars). Consider splitting.")
        (snd (analyze lines language)))
  /\ (forall t, In t (snd (analyze lines language)) ->
        exists i l, nth_error lines i = Some l /\ 100 < length l
                    /\ t = long_line_tip (i + 1) (length l))
  /\ snd (analyze [repeat (chr "a") 150] language)
     = [str "Line 1 is long (150 chars). Consider splitting."].
Proof.
  rewrite !analyze_eq; cbn [snd]; split; [|split].
  - intros i l Hi Hlen; apply long_line_tips_In; exists i, l; auto.
  - intros t Ht; apply long_line_tips_In in Ht; exact Ht.
  - vm_compute; reflexivity.
Qed.

(** A line of 101 characters on the third line, under a language without
    rules. *)
Lemma long_line_tip_emitted_witness :
  In (str "Line 3 is long (101 chars). Consider splitting.")
     (snd (analyze [str "x"; str "y"; repeat (chr "z") 101] Java)).
Proof.
  destruct (long_line_tip_emitted [str "x"; str "y"; repeat (chr "z") 101] Java)
    as [H _].
  apply (H 2 (repeat (chr "z") 101)); [reflexivity|].
  rewrite repeat_length; lia.
Defined.

(** C9: the Tips do not depend on the language: the per-language pass only
    pushes Findings and leaves the Tips as they are, and the generic pass
    does not read the language. *)
Theorem tips_language_independent (lines : list jsstring) (L1 L2 : Language) :
  snd (analyze lines L1) = snd (analyze lines L2)
  /\ (forall errors tips,
        snd (analyzeCodeByRules lines L1 errors tips) = tips).
Proof.
  split.
  - rewrite !analyze_eq; reflexivity.
  - intros errors tips; rewrite analyzeCodeByRules_eq; reflexivity.
Qed.

(** C10: the loose-equality rule fires on a strict comparison.  On the line
    [a === b] the pattern does not match at the first [=] (the character
    after the first two is [=]) but matches at the second one, where the
    last two [=] are followed by a space, and the analysis under JavaScript
    reports the loose-equality warning for the line. *)
Theorem loose_equality_on_strict :
  ends re_loose_equality (Some (chr " "), str "=== b") = []
  /\ ends re_loose_equality (Some (chr "="), str "== b") = [(Some (chr " "), str "b")]
  /\ fst (analyze [str "a === b"] JavaScript)
     = [ {| line := 1;
            message := str "Loose equality (==) found.";
            suggestion := str "Use === for strict equality checks.";
            type := warning;
            codeSnippet := Some (str "a === b") |} ].
Proof. repeat split; vm_compute; reflexivity. Qed.

(** * Further properties *)

(** ** The matcher and the meaning of patterns *)

Section Meaning.

Lemma eat_iff (s : jsstring) (p q : pos) :
  In q (eat s p) <-> reads p s q.
Proof.
  split; [apply eat_sound|].
  destruct p as [prev rest], q as [prev' rest']; intros [H1 H2]; simpl in *; subst.
  apply eat_complete.
Qed.

Lemma rounds_iter (step : pos -> list pos) (R : pos -> pos -> Prop) :
  (forall p q, In q (step p) -> R p q) ->
  forall fuel p q, In q (rounds step fuel p) -> iter R p q.
Proof.
  intros HR; induction fuel as [|n IH]; intros p q; simpl.
  - intros [<- | []]; constructor.
  - intros [<- | H]; [constructor|].
    apply in_flat_map in H; destruct H as [m [Hm H]].
    destruct (length (snd m) <? length (snd p)) eqn:E; [|destruct H].
    apply Nat.ltb_lt in E.
    apply iter_round with (m := m); [apply HR; exact Hm | exact E | apply IH; exact H].
Qed.

Lemma iter_rounds (step : pos -> list pos) (R : pos -> pos -> Prop) :
  (forall p q, R p q -> In q (step p)) ->
  forall p q, iter R p q ->
  forall fuel, length (snd p) <= fuel -> In q (rounds step fuel p).
Proof.
  intros HR p q H; induction H as [p|p m q Hpm Hlt _ IH]; intros fuel Hfuel.
  - apply rounds_self.
  - destruct fuel as [|n]; [lia|]; cbn [rounds]; right.
    apply in_flat_map; exists m; split; [exact (HR _ _ Hpm)|].
    pose proof Hlt as Hlt'; apply Nat.ltb_lt in Hlt'.
    unfold pos, jsstring in *; rewrite Hlt'.
    apply IH; lia.
Qed.

(** The matcher computes the meaning of the pattern: the positions it
    reports are exactly those a match can end at. *)
Lemma ends_iff (r : regex) (p q : pos) :
  In q (ends r p) <-> reaches r p q.
Proof.
  revert p q;
    induction r as [s|k|a IHa b IHb|a IHa b IHb|a IHa|a IHa| | | |a IHa];
    intros p q; simpl.
  - apply eat_iff.
  - destruct p as [prev [|x t]]; simpl.
    + split; [intros [] | intros [c [_ [H _]]]; discriminate].
    + destruct (member k x) eqn:E; simpl; split.
      * intros [<- | []]; exists x; split; [exact E | split; reflexivity].
      * intros [c [_ [H1 H2]]]; simpl in *; inversion H1; subst.
        left; destruct q; simpl in *; subst; reflexivity.
      * intros [].
      * intros [c [Hc [H1 _]]]; simpl in *; inversion H1; subst; congruence.
  - rewrite in_flat_map; split.
    + intros [m [H1 H2]]; exists m; split; [apply IHa | apply IHb]; assumption.
    + intros [m [H1 H2]]; exists m; split; [apply IHa | apply IHb]; assumption.
  - rewrite in_app_iff, IHa, IHb; reflexivity.
  - split.
    + apply rounds_iter; intros p' q'; apply IHa.
    + intros H; apply iter_rounds with (R := reaches a); [intros p' q'; apply IHa | exact H | apply Nat.le_refl].
  - rewrite in_flat_map; split.
    + intros [m [H1 H2]]; exists m; split; [apply IHa; exact H1|].
      revert H2; apply rounds_iter; intros p' q'; apply IHa.
    + intros [m [H1 H2]]; exists m; split; [apply IHa; exact H1|].
      apply iter_rounds with (R := reaches a); [intros p' q'; apply IHa | exact H2 | apply Nat.le_refl].
  - destruct p as [[c|] rest]; simpl; split.
    + intros [].
    + intros [H _]; discriminate.
    + intros [<- | []]; auto.
    + intros [_ ->]; left; reflexivity.
  - destruct p as [prev [|x t]]; simpl; split.
    + intros [<- | []]; auto.
    + intros [_ ->]; left; reflexivity.
    + intros [].
    + intros [H _]; discriminate.
  - destruct (atBoundary p); simpl; split.
    + intros [<- | []]; auto.
    + intros [_ ->]; left; reflexivity.
    + intros [].
    + intros [H _]; discriminate.
  - destruct (ends a p) as [|m l] eqn:E; simpl; split.
    + intros [<- | []]; split; [|reflexivity].
      intros m Hm; apply IHa in Hm; rewrite E in Hm; exact Hm.
    + intros [_ ->]; left; reflexivity.
    + intros [].
    + intros [H _]; apply (H m), IHa; rewrite E; left; reflexivity.
Qed.

Lemma matchesAt_iff (r : regex) (p : pos) :
  matchesAt r p = true <-> exists q, reaches r p q.
Proof.
  unfold matchesAt; destruct (ends r p) as [|q l] eqn:E; split.
  - discriminate.
  - intros [q Hq]; apply ends_iff in Hq; rewrite E in Hq; destruct Hq.
  - intros _; exists q; apply ends_iff; rewrite E; left; reflexivity.
  - reflexivity.
Qed.

(** [test]: a match starts somewhere in the text. *)
Lemma test_iff (r : regex) (s : jsstring) :
  test r s = true <->
  exists a b q, s = a ++ b /\ reaches r (advance None a, b) q.
Proof.
  unfold test; rewrite existsb_exists; split.
  - intros [p [Hp Hm]]; apply positions_In in Hp; destruct Hp as [a [Ha Hb]].
    apply matchesAt_iff in Hm; destruct Hm as [q Hq].
    exists a, (snd p), q; simpl in *; split; [exact Ha|].
    rewrite <- Hb; destruct p; exact Hq.
  - intros [a [b [q [-> Hq]]]]; exists (advance None a, b); split.
    + apply positions_In; exists a; split; reflexivity.
    + apply matchesAt_iff; exists q; exact Hq.
Qed.

Lemma test_Alt (a b : regex) (s : jsstring) :
  test (Alt a b) s = test a s || test b s.
Proof.
  apply eq_true_iff_eq; rewrite orb_true_iff, !test_iff; simpl; split.
  - intros [x [y [q [Hs [H | H]]]]]; [left | right]; exists x, y, q; auto.
  - intros [[x [y [q [Hs H]]]] | [x [y [q [Hs H]]]]]; exists x, y, q; auto.
Qed.

End Meaning.

(** ** The lists of Findings and Tips *)

Section Lists.

Lemma line_findings_In (rs : list Rule) (l : jsstring) (n : Z) (f : ErrorType) :
  In f (line_findings rs l n) <->
  exists r, In r rs /\ test (Rule.regex r) l = true /\ f = finding_of l n r.
Proof.
  unfold line_findings; rewrite in_map_iff; split.
  - intros [r [<- Hr]]; apply filter_In in Hr; exists r; tauto.
  - intros [r [Hin [Ht ->]]]; exists r; split; [reflexivity|].
    apply filter_In; auto.
Qed.

Lemma rule_findings_In (rs : list Rule) (lines : list jsstring) (k : nat)
    (f : ErrorType) :
  In f (rule_findings rs lines k) <->
  exists i l r, nth_error lines i = Some l /\ In r rs
                /\ test (Rule.regex r) l = true
                /\ f = finding_of l (Z.of_nat (k + i) + 1) r.
Proof.
  revert k; induction lines as [|l lines IH]; intros k; simpl.
  - split; [tauto | intros [[|i] [l [r [H _]]]]; discriminate].
  - rewrite in_app_iff, line_findings_In, IH; split.
    + intros [[r [Hin [Ht ->]]] | [i [l' [r [Hi [Hin [Ht ->]]]]]]].
      * exists 0, l, r; rewrite Nat.add_0_r; auto.
      * exists (S i), l', r; repeat split; auto; do 2 f_equal; lia.
    + intros [[|i] [l' [r [Hi [Hin [Ht ->]]]]]]; simpl in Hi.
      * inversion Hi; subst; left; exists r; rewrite Nat.add_0_r; auto.
      * right; exists i, l', r; repeat split; auto; do 2 f_equal; lia.
Qed.

Lemma line_findings_length (rs : list Rule) (l : jsstring) (n : Z) :
  length (line_findings rs l n) <= length rs.
Proof.
  unfold line_findings; rewrite length_map; apply filter_length_le.
Qed.

Lemma rule_findings_length (rs : list Rule) (lines : list jsstring) (k : nat) :
  length (rule_findings rs lines k) <= length lines * length rs.
Proof.
  revert k; induction lines as [|l lines IH]; intros k; simpl; [lia|].
  rewrite length_app.
  pose proof (line_findings_length rs l (Z.of_nat k + 1)).
  specialize (IH (S k)); lia.
Qed.

Lemma long_line_tips_length (lines : list jsstring) (k : nat) :
  length (long_line_tips lines k)
  = length (filter (fun l => 100 <? length l) lines).
Proof.
  revert k; induction lines as [|l lines IH]; intros k; simpl; [reflexivity|].
  rewrite length_app, IH; destruct (100 <? length l); reflexivity.
Qed.

Lemma StronglySorted_app (A : Type) (R : A -> A -> Prop) (l1 l2 : list A) :
  StronglySorted R l1 -> StronglySorted R l2 ->
  (forall x y, In x l1 -> In y l2 -> R x y) ->
  StronglySorted R (l1 ++ l2).
Proof.
  induction l1 as [|a l1 IH]; intros H1 H2 H12; simpl; [exact H2|].
  inversion H1 as [|? ? Hs Hf]; subst; constructor.
  - apply IH; [exact Hs | exact H2 | intros x y Hx; apply H12; right; exact Hx].
  - apply Forall_app; split; [exact Hf|].
    apply Forall_forall; intros y Hy; apply H12; [left; reflexivity | exact Hy].
Qed.

Lemma line_findings_sorted (rs : list Rule) (l : jsstring) (n : Z) :
  StronglySorted line_le (line_findings rs l n).
Proof.
  unfold line_findings.
  induction (filter (fun rule => test (Rule.regex rule) l) rs) as [|r rs' IH];
    simpl; constructor; [exact IH|].
  apply Forall_forall; intros g Hg; apply in_map_iff in Hg.
  destruct Hg as [r' [<- _]]; unfold line_le; simpl; lia.
Qed.

Lemma rule_findings_sorted (rs : list Rule) (lines : list jsstring) (k : nat) :
  StronglySorted line_le (rule_findings rs lines k).
Proof.
  revert k; induction lines as [|l lines IH]; intros k; simpl; [constructor|].
  apply StronglySorted_app; [apply line_findings_sorted | apply IH|].
  intros x y Hx Hy; apply line_findings_In in Hx; destruct Hx as [r [_ [_ ->]]].
  apply rule_findings_line in Hy; unfold line_le; simpl; lia.
Qed.

Lemma findIndex_from_absent (A : Type) (p : A -> bool) (l : list A) (k : nat) :
  findIndex_from p l k = (-1)%Z -> forall x, In x l -> p x = false.
Proof.
  intros H x Hx; destruct (p x) eqn:E; [|reflexivity].
  pose proof (@findIndex_from_found _ p l k x Hx E); lia.
Qed.

End Lists.

(** ** Reading patterns *)

Section Reading.

Lemma member_Except (cs : jsstring) (c : N) :
  member (Except cs) c = true <-> ~ In c cs.
Proof.
  simpl; rewrite negb_true_iff; split.
  - intros H Hin.
    assert (Hex : existsb (N.eqb c) cs = true)
      by (apply existsb_exists; exists c; split; [exact Hin | apply N.eqb_refl]).
    congruence.
  - intros H; destruct (existsb (N.eqb c) cs) eqn:E; [|reflexivity].
    apply existsb_exists in E; destruct E as [x [Hx Hc]].
    apply N.eqb_eq in Hc; subst; contradiction.
Qed.

Lemma member_Only (cs : jsstring) (c : N) :
  member (Only cs) c = true <-> In c cs.
Proof.
  simpl; rewrite existsb_exists; split.
  - intros [x [Hx Hc]]; apply N.eqb_eq in Hc; subst; exact Hx.
  - intros H; exists c; split; [exact H | apply N.eqb_refl].
Qed.

Lemma reads_nil_inv (p q : pos) : reads p [] q -> q = p.
Proof.
  destruct p, q; intros [H1 H2]; simpl in *; subst; reflexivity.
Qed.

Lemma reads_pair (prev : option N) (w rest : jsstring) :
  reads (prev, w ++ rest) w (advance prev w, rest).
Proof. split; reflexivity. Qed.

Lemma reads_inv (p q : pos) (w : jsstring) :
  reads p w q -> p = (fst p, w ++ snd q) /\ q = (advance (fst p) w, snd q).
Proof.
  destruct p, q; intros [H1 H2]; simpl in *; subst; split; reflexivity.
Qed.

Lemma advance_snoc (prev : option N) (a : jsstring) (c : N) :
  advance prev (a ++ [c]) = Some c.
Proof. rewrite advance_app; reflexivity. Qed.

Lemma advance_None (a : jsstring) : advance None a = None <-> a = [].
Proof.
  split; [|intros ->; reflexivity].
  destruct a as [|c a] using rev_ind; [reflexivity|].
  rewrite advance_snoc; discriminate.
Qed.

(** The code unit before the end of [a] is not a word character. *)
Lemma isWordAt_advance (a : jsstring) :
  isWordAt (advance None a) = false <->
  forall a' c, a = a' ++ [c] -> isWordChar c = false.
Proof.
  destruct a as [|c a _] using rev_ind.
  - split; [intros _ a' c H; destruct a'; discriminate | reflexivity].
  - rewrite advance_snoc; simpl; split.
    + intros H a' c' Heq; apply app_inj_tail in Heq; destruct Heq as [_ <-]; exact H.
    + intros H; exact (H a c eq_refl).
Qed.

Lemma isWordAt_hd (b : jsstring) :
  isWordAt (hd_error b) = false <->
  forall c b', b = c :: b' -> isWordChar c = false.
Proof.
  destruct b as [|c b]; simpl.
  - split; [intros _ c b' H; discriminate | reflexivity].
  - split; [intros H c' b' Heq; inversion Heq; subst; exact H | intros H; exact (H c b eq_refl)].
Qed.

(** Rounds of one character class read a run of characters of the class. *)
Lemma iter_Cls (k : charset) (p q : pos) :
  iter (reaches (Cls k)) p q <->
  exists w, (forall c, In c w -> member k c = true) /\ reads p w q.
Proof.
  split.
  - induction 1 as [p|p m q [c [Hc Hr]] _ _ [w [Hw Hrw]]].
    + exists []; split; [intros c [] | apply reads_nil].
    + exists ([c] ++ w); split; [|exact (reads_trans Hr Hrw)].
      intros x [<- | Hx]; auto.
  - intros [w [Hw Hr]]; revert p Hw Hr; induction w as [|c w IH]; intros p Hw Hr.
    + apply reads_nil_inv in Hr; subst; constructor.
    + apply reads_inv in Hr; destruct Hr as [Hp Hq]; destruct p as [prev rest].
      simpl in Hp, Hq; inversion Hp as [Hrest].
      apply iter_round with (m := (Some c, w ++ snd q)).
      * exists c; split; [apply Hw; left; reflexivity | split; reflexivity].
      * simpl; lia.
      * apply IH; [intros x Hx; apply Hw; right; exact Hx|].
        rewrite Hq; split; reflexivity.
Qed.

Lemma reaches_Plus_Cls (k : charset) (p q : pos) :
  reaches (Plus (Cls k)) p q <->
  exists w, w <> [] /\ (forall c, In c w -> member k c = true) /\ reads p w q.
Proof.
  cbn [reaches]; split.
  - intros [m [[c [Hc Hr]] Hi]]; apply iter_Cls in Hi; destruct Hi as [w [Hw Hrw]].
    exists ([c] ++ w); split; [discriminate|]; split; [|exact (reads_trans Hr Hrw)].
    intros x [<- | Hx]; auto.
  - intros [[|c w] [Hne [Hw Hr]]]; [congruence|].
    apply reads_inv in Hr; destruct Hr as [Hp Hq]; destruct p as [prev rest].
    simpl in Hp, Hq; inversion Hp as [Hrest].
    exists (Some c, w ++ snd q); split.
    + exists c; split; [apply Hw; left; reflexivity | split; reflexivity].
    + apply iter_Cls; exists w; split; [intros x Hx; apply Hw; right; exact Hx|].
      rewrite Hq; split; reflexivity.
Qed.

(** A pattern that is one literal matches the texts that contain it. *)
Lemma test_Str (s l : jsstring) : test (Str s) l = true <-> contains l s.
Proof.
  rewrite test_iff; cbn [reaches]; unfold contains; split.
  - intros [a [b [q [-> H]]]]; apply reads_inv in H; destruct H as [H _].
    inversion H as [Hb]; exists a, (snd q); reflexivity.
  - intros [a [b ->]]; exists a, (s ++ b), (advance (advance None a) s, b).
    split; [reflexivity | apply reads_pair].
Qed.

End Reading.

(** ** Trimming, again *)

Section TrimmingMore.

Lemma dropWhile_skip (f : N -> bool) (a s : jsstring) :
  (forall c, In c a -> f c = true) -> dropWhile f (a ++ s) = dropWhile f s.
Proof.
  induction a as [|x a IH]; intros Ha; simpl; [reflexivity|].
  rewrite (Ha x (or_introl eq_refl)); apply IH.
  intros c Hc; apply Ha; right; exact Hc.
Qed.

Lemma dropWhile_split (f : N -> bool) (s : jsstring) :
  exists a, s = a ++ dropWhile f s /\ forall c, In c a -> f c = true.
Proof.
  induction s as [|x s [a [IH Ha]]]; simpl.
  - exists []; split; [reflexivity | intros c []].
  - destruct (f x) eqn:E.
    + exists (x :: a); split; [simpl; rewrite <- IH; reflexivity|].
      intros c [<- | Hc]; auto.
    + exists []; split; [reflexivity | intros c []].
Qed.

(** White space around a text does not change what trimming leaves. *)
Lemma trim_padding (a s b : jsstring) :
  (forall c, In c a -> isWhiteSpace c = true) ->
  (forall c, In c b -> isWhiteSpace c = true) ->
  trim (a ++ s ++ b) = trim s.
Proof.
  intros Ha Hb; unfold trim; rewrite (dropWhile_skip _ _ _ Ha); f_equal.
  destruct (dropWhile_split isWhiteSpace s) as [s1 [Hs Hs1]].
  destruct (dropWhile isWhiteSpace s) as [|c t] eqn:E.
  - rewrite Hs, app_nil_r, dropWhile_skip by exact Hs1.
    rewrite (dropWhile_all _ _ Hb); reflexivity.
  - pose proof (dropWhile_head _ _ E) as Hc.
    rewrite Hs, <- app_assoc, dropWhile_skip by exact Hs1.
    cbn [app dropWhile]; rewrite Hc.
    change (c :: t ++ b) with ((c :: t) ++ b); rewrite rev_app_distr.
    apply dropWhile_skip; intros x Hx; apply Hb, in_rev; exact Hx.
Qed.

(** The text is its trimmed text with white space around it. *)
Lemma trim_padded (s : jsstring) :
  exists a b,
    s = a ++ trim s ++ b
    /\ (forall c, In c a -> isWhiteSpace c = true)
    /\ (forall c, In c b -> isWhiteSpace c = true).
Proof.
  unfold trim.
  destruct (dropWhile_split isWhiteSpace s) as [a [Ha Haw]].
  destruct (dropWhile_split isWhiteSpace (rev (dropWhile isWhiteSpace s)))
    as [b [Hb Hbw]].
  exists a, (rev b); split; [|split].
  - rewrite <- rev_app_distr, <- Hb, rev_involutive; exact Ha.
  - exact Haw.
  - intros c Hc; apply Hbw, in_rev; exact Hc.
Qed.

Lemma trim_idempotent (s : jsstring) : trim (trim s) = trim s.
Proof.
  destruct (trim_padded s) as [a [b [Hs [Ha Hb]]]].
  rewrite Hs at 2; rewrite trim_padding; [reflexivity | exact Ha | exact Hb].
Qed.

End TrimmingMore.

(** ** Alternatives that an earlier pattern takes over *)

Section Shadowing.

Lemma pattern_of_Cpp (i : nat) (p : regex) :
  nth_error patterns i = Some (p, Cpp) -> i = 3 /\ p = pat_Cpp.
Proof.
  do 9 (destruct i as [|i]; [cbn; intros H; inversion H; auto|]).
  destruct i; discriminate.
Qed.

Lemma pattern_of_Java (i : nat) (p : regex) :
  nth_error patterns i = Some (p, Java) -> i = 4 /\ p = pat_Java.
Proof.
  do 9 (destruct i as [|i]; [cbn; intros H; inversion H; auto|]).
  destruct i; discriminate.
Qed.

Lemma test_pat_C_include (s : jsstring) :
  test re_include s = true -> test pat_C s = true.
Proof.
  intros H; unfold pat_C; rewrite test_Alt.
  unfold re_include in H; rewrite H; reflexivity.
Qed.

Lemma test_pat_Cpp_split (s : jsstring) :
  test pat_Cpp s = test re_include s || test re_cpp_only s.
Proof.
  unfold pat_Cpp, re_cpp_only, re_include; rewrite !test_Alt.
  repeat match goal with |- context [test ?r s] => destruct (test r s) end; reflexivity.
Qed.

Lemma test_pat_Java_split (s : jsstring) :
  test pat_Java s = test re_import_java s || test re_java_only s.
Proof.
  unfold pat_Java, re_java_only, re_import_java; rewrite !test_Alt.
  repeat match goal with |- context [test ?r s] => destruct (test r s) end; reflexivity.
Qed.

(** A text with [import], white space and [java.] has [import], white
    space and a word: the Python pattern matches it. *)
Lemma test_pat_Python_import_java (s : jsstring) :
  test re_import_java s = true -> test pat_Python s = true.
Proof.
  rewrite !test_iff; unfold re_import_java, pat_Python.
  intros [a [b [q [Hs H]]]]; cbn [reaches] in H.
  destruct H as [m [Hm [m2 [Hws Hj]]]].
  apply reads_inv in Hj; destruct Hj as [Hm2 _].
  exists a, b, (advance (fst m2) (str "java"), str "." ++ snd q); split; [exact Hs|].
  cbn [reaches]; right; left.
  exists m; split; [exact Hm|]; exists m2; split; [exact Hws|].
  apply reaches_Plus_Cls; exists (str "java"); split; [discriminate|]; split.
  - intros c Hc; simpl in Hc.
    repeat (destruct Hc as [<- | Hc]; [reflexivity|]); destruct Hc.
  - rewrite Hm2 at 1; split; reflexivity.
Qed.

End Shadowing.

(** ** Splitting the text into lines *)

Section Splitting.

Lemma split_lf_cons (s : jsstring) : exists l ls, split_lf s = l :: ls.
Proof.
  induction s as [|c s [l [ls IH]]]; simpl; [eauto|].
  destruct (N.eqb c 10); [eauto | rewrite IH; eauto].
Qed.

Lemma split_lf_length (s : jsstring) : length (split_lf s) = S (count_lf s).
Proof.
  unfold count_lf; induction s as [|c s IH]; simpl; [reflexivity|].
  destruct (N.eqb c 10); simpl; [rewrite IH; reflexivity|].
  destruct (split_lf s); simpl in *; [discriminate | exact IH].
Qed.

Lemma split_lf_join (s : jsstring) : join (split_lf s) = without_lf s.
Proof.
  unfold join, without_lf; induction s as [|c s IH]; simpl; [reflexivity|].
  destruct (N.eqb c 10); simpl; [exact IH|].
  destruct (split_lf s) as [|l ls]; simpl in *; rewrite <- IH; reflexivity.
Qed.

Lemma split_lf_no_lf (s : jsstring) (l : jsstring) :
  In l (split_lf s) -> ~ In 10%N l.
Proof.
  revert l; induction s as [|c s IH]; intros l; simpl.
  - intros [<- | []] [].
  - destruct (N.eqb_spec c 10) as [-> | Hc].
    + intros [<- | H]; [intros [] | exact (IH l H)].
    + destruct (split_lf s) as [|l0 ls]; simpl.
      * intros [<- | []] [H | []]; congruence.
      * intros [<- | H].
        -- intros [H | H]; [congruence | exact (IH l0 (or_introl eq_refl) H)].
        -- apply IH; right; exact H.
Qed.

End Splitting.

Section JavaScriptFirst.

Lemma detect_JavaScript_of_test (code : jsstring) :
  test pat_JavaScript code = true -> detectLanguage code = JavaScript.
Proof.
  intros H.
  rewrite <- (@test_trim pat_JavaScript code eq_refl eq_refl eq_refl) in H.
  unfold detectLanguage.
  destruct (trim code) as [|c t]; [vm_compute in H; discriminate|]; cbn [falsy].
  rewrite (@first_match_first patterns (c :: t) 0 pat_JavaScript JavaScript eq_refl H);
    [reflexivity|].
  intros j q m Hj; lia.
Qed.

End JavaScriptFirst.

(** * Properties of the rule engine *)

(** X1: the per-language pass reports exactly the matches.  A Finding is in
    its result if and only if some rule of the language matches some line,
    and the Finding carries that rule's message, suggestion and severity,
    the 1-based number of that line and its trimmed text. *)
Theorem rule_finding_iff (lines : list jsstring) (language : Language)
    (f : ErrorType) :
  In f (fst (analyzeCodeByRules lines language [] [])) <->
  exists i l r,
    nth_error lines i = Some l
    /\ In r (langRules_of language)
    /\ test (Rule.regex r) l = true
    /\ f = {| line := Z.of_nat i + 1;
              message := Rule.message r;
              suggestion := Rule.suggestion r;
              type := Rule.type r;
              codeSnippet := Some (trim l) |}.
Proof.
  rewrite analyzeCodeByRules_eq; cbn [fst app].
  rewrite rule_findings_In; reflexivity.
Qed.

(** X2: every Finding of the analysis is on a line between 0 and the number
    of lines, and one on line 0 is the infinite-loop Finding of a text whose
    joined lines contain a loop literal that no single line contains. *)
Theorem finding_line_bounds (lines : list jsstring) (language : Language)
    (f : ErrorType) :
  In f (fst (analyze lines language)) ->
  (0 <= line f <= Z.of_nat (length lines))%Z
  /\ (line f = 0%Z ->
      type f = logical
      /\ mentions_loop (concat lines)
      /\ forall l, In l lines -> ~ mentions_loop l).
Proof.
  rewrite analyze_eq; cbn [fst]; rewrite in_app_iff; intros [H | H].
  - apply rule_findings_line in H; simpl in H; split; lia.
  - destruct (has_loop (join lines)) eqn:E; [|destruct H].
    destruct H as [<- | []]; split; [apply loop_finding_line|].
    intros H0; split; [reflexivity|]; split; [apply has_loop_iff; exact E|].
    intros l Hl; apply has_loop_false_iff.
    apply (@findIndex_from_absent _ has_loop lines 0); [|exact Hl].
    unfold loop_finding, findIndex in H0; simpl in H0; lia.
Qed.

Lemma finding_line_bounds_witness :
  (0 <= line (loop_finding [str "while("; str "true)"]) <= 2)%Z
  /\ (line (loop_finding [str "while("; str "true)"]) = 0%Z ->
      type (loop_finding [str "while("; str "true)"]) = logical
      /\ mentions_loop (concat [str "while("; str "true)"])
      /\ forall l, In l [str "while("; str "true)"] -> ~ mentions_loop l).
Proof.
  apply (@finding_line_bounds [str "while("; str "true)"] Python).
  vm_compute; left; reflexivity.
Defined.

(** X3: the Findings of the per-language pass come in the order of their
    lines, and the analysis returns them followed by the infinite-loop
    Finding, if any, whatever the line of that one. *)
Theorem findings_in_line_order (lines : list jsstring) (language : Language) :
  StronglySorted line_le (fst (analyzeCodeByRules lines language [] []))
  /\ fst (analyze lines language)
     = fst (analyzeCodeByRules lines language [] [])
       ++ (if has_loop (join lines) then [loop_finding lines] else []).
Proof.
  rewrite analyze_eq, analyzeCodeByRules_eq; cbn [fst app]; split;
    [apply rule_findings_sorted | reflexivity].
Qed.

(** X4: the analysis returns at most one Finding per line and rule of the
    language, plus one for the loop check, and exactly one Tip per line
    longer than 100 characters. *)
Theorem findings_and_tips_count (lines : list jsstring) (language : Language) :
  length (fst (analyze lines language))
    <= length lines * length (langRules_of language) + 1
  /\ length (snd (analyze lines language))
     = length (filter (fun l => 100 <? length l) lines)
  /\ length (snd (analyze lines language)) <= length lines.
Proof.
  rewrite analyze_eq; cbn [fst snd]; rewrite length_app, long_line_tips_length.
  pose proof (rule_findings_length (langRules_of language) lines 0).
  pose proof (filter_length_le (fun l : jsstring => 100 <? length l) lines).
  unfold jsstring in *; destruct (has_loop (join lines)); cbn [length]; lia.
Qed.

(** X5: under a language without rules (C, C++, Java, C#, Unknown) the
    analysis returns no Finding but the one of the infinite-loop check. *)
Theorem no_rules_no_findings (lines : list jsstring) (language : Language) :
  In language [C; Cpp; Java; CSharp; Unknown] ->
  fst (analyzeCodeByRules lines language [] []) = []
  /\ forall f, In f (fst (analyze lines language)) ->
               f = loop_finding lines /\ mentions_loop (concat lines).
Proof.
  intros Hl.
  assert (Hrs : langRules_of language = []).
  { simpl in Hl; repeat (destruct Hl as [<- | Hl]; [reflexivity|]); destruct Hl. }
  assert (Hnil : forall k, rule_findings [] lines k = []).
  { induction lines as [|l lines IH]; intros k; simpl; [reflexivity | apply IH]. }
  rewrite analyze_eq, analyzeCodeByRules_eq, Hrs, Hnil; cbn [fst app]; split;
    [reflexivity|].
  intros f H; destruct (has_loop (join lines)) eqn:E; [|destruct H].
  destruct H as [<- | []]; split; [reflexivity | apply has_loop_iff; exact E].
Qed.

Lemma no_rules_no_findings_witness :
  fst (analyzeCodeByRules [str "var x == 1"; str "for(;;)"] Java [] []) = []
  /\ forall f, In f (fst (analyze [str "var x == 1"; str "for(;;)"] Java)) ->
               f = loop_finding [str "var x == 1"; str "for(;;)"]
               /\ mentions_loop (concat [str "var x == 1"; str "for(;;)"]).
Proof.
  apply (@no_rules_no_findings [str "var x == 1"; str "for(;;)"] Java).
  simpl; tauto.
Defined.

(** X6: the TypeScript rules are among the JavaScript rules, so every
    Finding of the analysis under TypeScript is a Finding of the analysis of
    the same lines under JavaScript. *)
Theorem typescript_findings_in_javascript (lines : list jsstring) (f : ErrorType) :
  In f (fst (analyze lines TypeScript)) -> In f (fst (analyze lines JavaScript)).
Proof.
  rewrite !analyze_eq; cbn [fst]; rewrite !in_app_iff.
  intros [H | H]; [left | right; exact H].
  apply rule_findings_In in H; apply rule_findings_In.
  destruct H as [i [l [r [Hi [Hr [Ht ->]]]]]]; exists i, l, r; repeat split; auto.
  destruct Hr as [<- | []]; left; reflexivity.
Qed.

Lemma typescript_findings_in_javascript_witness :
  In (finding_of (str "a === b") 1 loose_equality_rule)
     (fst (analyze [str "a === b"] JavaScript)).
Proof.
  apply (@typescript_findings_in_javascript [str "a === b"]).
  vm_compute; left; reflexivity.
Defined.

(** * When the rules fire *)

(** X7: the loose-equality rule of JavaScript and TypeScript fires on a
    line exactly when the line has [==] followed by a character other than
    [=]; so it also fires on [===] and [!==] followed by something, and does
    not fire on a [==] that ends the line. *)
Theorem loose_equality_fires (l : jsstring) :
  test re_loose_equality l = true <->
  exists a c b, l = a ++ str "==" ++ c :: b /\ c <> chr "=".
Proof.
  rewrite test_iff; unfold re_loose_equality; cbn [reaches]; split.
  - intros [a [b [q [-> [m [Hm [c [Hc Hq]]]]]]]].
    apply reads_inv in Hm; destruct Hm as [Hb Hm].
    apply reads_inv in Hq; destruct Hq as [Hmq _].
    inversion Hb as [Hb']; rewrite Hmq; cbn [snd].
    exists a, c, (snd q); split; [reflexivity|].
    apply member_Except in Hc; intros ->; apply Hc; left; reflexivity.
  - intros [a [c [b [-> Hc]]]].
    exists a, (str "==" ++ c :: b), (Some c, b); split; [reflexivity|].
    exists (advance (advance None a) (str "=="), c :: b); split; [apply reads_pair|].
    exists c; split; [|split; reflexivity].
    apply member_Except; intros [H | []]; apply Hc; symmetry; exact H.
Qed.

(** X8: the [var] rule fires on a line exactly when [var] stands in it as a
    whole word: the character before it, if any, and the character after
    it, if any, are not word characters. *)
Theorem var_rule_fires (l : jsstring) :
  test re_var l = true <->
  exists a b,
    l = a ++ str "var" ++ b
    /\ (forall a' c, a = a' ++ [c] -> isWordChar c = false)
    /\ (forall c b', b = c :: b' -> isWordChar c = false).
Proof.
  rewrite test_iff; unfold re_var; cbn [reaches]; split.
  - intros [a [b [q [-> [m [[Hb1 ->] [m2 [Hm [Hb2 _]]]]]]]]].
    apply reads_inv in Hm; destruct Hm as [Hb Hm2]; inversion Hb as [Hb'].
    exists a, (snd m2); split; [reflexivity|].
    rewrite Hb' in Hb1; rewrite Hm2 in Hb2.
    unfold atBoundary in Hb1, Hb2; cbn [fst snd] in Hb1, Hb2.
    cbn in Hb1, Hb2.
    split; [apply isWordAt_advance | apply isWordAt_hd].
    + destruct (isWordAt (advance None a)); [discriminate | reflexivity].
    + destruct (isWordAt (hd_error (snd m2))); [discriminate | reflexivity].
  - intros [a [b [-> [Ha Hb]]]].
    apply isWordAt_advance in Ha; apply isWordAt_hd in Hb.
    exists a, (str "var" ++ b), (advance (advance None a) (str "var"), b).
    split; [reflexivity|].
    exists (advance None a, str "var" ++ b); split.
    + split; [|reflexivity]. unfold atBoundary; cbn [fst snd]; rewrite Ha; reflexivity.
    + exists (advance (advance None a) (str "var"), b); split; [apply reads_pair|].
      split; [|reflexivity]. unfold atBoundary; cbn [fst snd]; rewrite Hb; reflexivity.
Qed.

(** X9: the rule with the message about a missing semicolon fires on a line
    exactly when the line has [console.log(] with no [)] after it up to the
    end of the line; a closed call is never reported, with or without a
    semicolon. *)
Theorem console_log_rule_fires (l : jsstring) :
  test re_console_log l = true <->
  exists a b, l = a ++ str "console.log(" ++ b /\ ~ In (chr ")") b.
Proof.
  rewrite test_iff; unfold re_console_log; cbn [reaches]; split.
  - intros [a [b [q [-> [m [Hm [m2 [Hi [He _]]]]]]]]].
    apply iter_Cls in Hi; destruct Hi as [w [Hw Hr]].
    apply reads_inv in Hm; destruct Hm as [Hb Hm]; inversion Hb as [Hb'].
    apply reads_inv in Hr; destruct Hr as [Hmw _].
    rewrite Hmw, He, app_nil_r; cbn [snd].
    exists a, w; split; [reflexivity|].
    intros Hin; apply Hw, member_Except in Hin; apply Hin; left; reflexivity.
  - intros [a [b [-> Hb]]].
    exists a, (str "console.log(" ++ b),
      (advance (advance (advance None a) (str "console.log(")) b, []).
    split; [reflexivity|].
    exists (advance (advance None a) (str "console.log("), b); split; [apply reads_pair|].
    exists (advance (advance (advance None a) (str "console.log(")) b, []); split.
    + apply iter_Cls; exists b; split.
      * intros c Hc; apply member_Except; intros [H | []]; subst; exact (Hb Hc).
      * split; [cbn [snd]; rewrite app_nil_r; reflexivity | reflexivity].
    + split; reflexivity.
Qed.

(** X10: the Python print rule fires on a line exactly when the line has
    [print], then one or more white-space characters, then a character other
    than a parenthesis, with no line terminator (such as a carriage return)
    before [print].  The character after the white space may itself be
    white space, so [print] followed by two spaces and a parenthesis is
    reported. *)
Theorem print_rule_fires (l : jsstring) :
  test re_print l = true <->
  exists a ws c b,
    l = a ++ str "print" ++ ws ++ c :: b
    /\ (forall x, In x a -> isLineTerminator x = false)
    /\ ws <> []
    /\ (forall x, In x ws -> isWhiteSpace x = true)
    /\ c <> chr "(" /\ c <> chr ")".
Proof.
  rewrite test_iff; unfold re_print; cbn [reaches]; split.
  - intros [a0 [b0 [q [-> [m0 [[Hbol ->] [m1 [Hdots [m2 [Hp [m3 [Hws [c [Hc Hq]]]]]]]]]]]]]].
    cbn [fst] in Hbol; apply advance_None in Hbol; subst a0; cbn [app].
    apply iter_Cls in Hdots; destruct Hdots as [a [Ha Hra]].
    apply reaches_Plus_Cls in Hws; destruct Hws as [ws [Hne [Hws Hrws]]].
    apply reads_inv in Hra; destruct Hra as [Hb0 _]; inversion Hb0 as [Hb0'].
    apply reads_inv in Hp; destruct Hp as [Hm1 _].
    apply reads_inv in Hrws; destruct Hrws as [Hm2 _].
    apply reads_inv in Hq; destruct Hq as [Hm3 _].
    rewrite Hm1, Hm2, Hm3; cbn [snd].
    exists a, ws, c, (snd q); split; [reflexivity|].
    split; [intros x Hx; apply negb_true_iff; exact (Ha x Hx)|].
    split; [exact Hne|]; split; [exact Hws|].
    apply member_Except in Hc; split; intros ->; apply Hc; simpl; tauto.
  - intros [a [ws [c [b [-> [Ha [Hne [Hws [Hc1 Hc2]]]]]]]]].
    exists [], (a ++ str "print" ++ ws ++ c :: b), (Some c, b); split; [reflexivity|].
    exists (None, a ++ str "print" ++ ws ++ c :: b); split; [split; reflexivity|].
    exists (advance None a, str "print" ++ ws ++ c :: b); split.
    { apply iter_Cls; exists a; split; [|apply reads_pair].
      intros x Hx; apply negb_true_iff; exact (Ha x Hx). }
    exists (advance (advance None a) (str "print"), ws ++ c :: b); split;
      [apply reads_pair|].
    exists (advance (advance (advance None a) (str "print")) ws, c :: b); split.
    { apply reaches_Plus_Cls; exists ws; split; [exact Hne|]; split;
        [exact Hws | apply reads_pair]. }
    exists c; split; [|split; reflexivity].
    apply member_Except; intros [H | [H | []]]; [apply Hc1 | apply Hc2]; symmetry; exact H.
Qed.

(** X11: the wildcard-import rule fires on a line exactly when the line has
    [import *] (with one space) and no line terminator before it. *)
Theorem import_star_rule_fires (l : jsstring) :
  test re_import_star l = true <->
  exists a b,
    l = a ++ str "import *" ++ b
    /\ (forall x, In x a -> isLineTerminator x = false).
Proof.
  rewrite test_iff; unfold re_import_star; cbn [reaches]; split.
  - intros [a0 [b0 [q [-> [m0 [[Hbol ->] [m1 [Hdots Hp]]]]]]]].
    cbn [fst] in Hbol; apply advance_None in Hbol; subst a0; cbn [app].
    apply iter_Cls in Hdots; destruct Hdots as [a [Ha Hra]].
    apply reads_inv in Hra; destruct Hra as [Hb0 _]; inversion Hb0 as [Hb0'].
    apply reads_inv in Hp; destruct Hp as [Hm1 _].
    rewrite Hm1; cbn [snd].
    exists a, (snd q); split; [reflexivity|].
    intros x Hx; apply negb_true_iff; exact (Ha x Hx).
  - intros [a [b [-> Ha]]].
    exists [], (a ++ str "import *" ++ b),
      (advance (advance None a) (str "import *"), b); split; [reflexivity|].
    exists (None, a ++ str "import *" ++ b); split; [split; reflexivity|].
    exists (advance None a, str "import *" ++ b); split; [|apply reads_pair].
    apply iter_Cls; exists a; split; [|apply reads_pair].
    intros x Hx; apply negb_true_iff; exact (Ha x Hx).
Qed.

(** X12: the image rule fires on a line exactly when the line has [<img]
    not followed by a word character and, after this [<img], no [alt=] that
    comes right after a character that is not a word character, with no line
    terminator in between.  An [alt=] later on the line silences the rule
    for every [<img] before it, and an [alt=] on another line never does. *)
Theorem img_rule_fires (l : jsstring) :
  test re_img_alt l = true <->
  exists a b,
    l = a ++ str "<img" ++ b
    /\ (forall c b', b = c :: b' -> isWordChar c = false)
    /\ ~ (exists d x y,
            b = d ++ x :: str "alt=" ++ y
            /\ isWordChar x = false
            /\ forall c, In c (d ++ [x]) -> isLineTerminator c = false).
Proof.
  rewrite test_iff; unfold re_img_alt; cbn [reaches]; split.
  - intros [a [b0 [q [-> [m [Hm [m2 [[Hb ->] [Hno _]]]]]]]]].
    apply reads_inv in Hm; destruct Hm as [Hb0 Hm]; inversion Hb0 as [Hb0'].
    rewrite Hm in Hb, Hno; clear Hm.
    unfold atBoundary in Hb; cbn in Hb.
    exists a, (snd m); split; [reflexivity|]; split.
    + apply isWordAt_hd; destruct (isWordAt (hd_error (snd m))); [discriminate | reflexivity].
    + intros [d [x [y [Hbd [Hx Hlt]]]]].
      apply (Hno (advance (Some x) (str "alt="), y)).
      exists (Some x, str "alt=" ++ y); split.
      * apply iter_Cls; exists (d ++ [x]); split.
        -- intros c Hc; apply negb_true_iff; exact (Hlt c Hc).
        -- split; cbn [fst snd]; [rewrite Hbd, <- app_assoc; reflexivity|].
           rewrite advance_snoc; reflexivity.
      * exists (Some x, str "alt=" ++ y); split; [|apply reads_pair].
        split; [|reflexivity]. unfold atBoundary; cbn; rewrite Hx; reflexivity.
  - intros [a [b [-> [Hb Hno]]]].
    apply isWordAt_hd in Hb.
    exists a, (str "<img" ++ b), (advance (advance None a) (str "<img"), b).
    split; [reflexivity|].
    exists (advance (advance None a) (str "<img"), b); split; [apply reads_pair|].
    exists (advance (advance None a) (str "<img"), b); split.
    { split; [|reflexivity]. unfold atBoundary; cbn; rewrite Hb; reflexivity. }
    split; [|reflexivity].
    intros z [n1 [Hdots [n2 [[Hbn ->] Halt]]]].
    apply iter_Cls in Hdots; destruct Hdots as [w [Hw Hrw]].
    apply reads_inv in Hrw; destruct Hrw as [Hbw Hn1]; inversion Hbw as [Hbw'].
    apply reads_inv in Halt; destruct Halt as [Hn1' _].
    rewrite Hn1 in Hbn; unfold atBoundary in Hbn; cbn [fst snd] in Hbn.
    rewrite Hn1' in Hbn; cbn [snd hd_error str app] in Hbn.
    destruct w as [|x d _] using rev_ind; [cbn in Hbn; discriminate|].
    rewrite advance_snoc in Hbn; cbn in Hbn.
    apply Hno; exists d, x, (snd z); split; [|split].
    + rewrite Hbw', Hn1'; cbn [snd]; rewrite <- app_assoc; reflexivity.
    + destruct (isWordChar x); [discriminate | reflexivity].
    + intros c Hc; apply negb_true_iff; exact (Hw c Hc).
Qed.

(** X13: the two CSS rules fire on a line exactly when the line contains
    [!important], respectively [px], anywhere, also inside a longer word. *)
Theorem css_rules_fire (l : jsstring) :
  (test re_important l = true <-> contains l (str "!important"))
  /\ (test re_px l = true <-> contains l (str "px")).
Proof. split; apply test_Str. Qed.

(** * Properties of the detector *)

(** X14: first match wins, for every language.  [detectLanguage] answers a
    language other than Unknown exactly when the pattern tagged with this
    language matches the trimmed text and no pattern before it in the list
    does. *)
Theorem detect_first_match (code : jsstring) (l : Language) :
  l <> Unknown ->
  (detectLanguage code = l <->
   exists i p,
     nth_error patterns i = Some (p, l)
     /\ test p (trim code) = true
     /\ forall j q m, j < i -> nth_error patterns j = Some (q, m) ->
                      test q (trim code) = false).
Proof.
  intros Hl; unfold detectLanguage; split.
  - destruct (trim code) as [|c t] eqn:E; cbn [falsy]; [congruence|].
    destruct (first_match patterns (c :: t)) as [m|] eqn:Em; [|congruence].
    intros ->; apply first_match_position; exact Em.
  - intros [i [p [Hi [Ht Hbefore]]]].
    destruct (trim code) as [|c t] eqn:E; cbn [falsy].
    + apply nth_error_In in Hi; rewrite (patterns_need_text Hi) in Ht; discriminate.
    + rewrite (@first_match_first patterns (c :: t) i p l Hi Ht Hbefore); reflexivity.
Qed.

Lemma detect_first_match_witness :
  detectLanguage (str "#include <iostream>") = C.
Proof.
  apply (@detect_first_match (str "#include <iostream>") C); [discriminate|].
  exists 2, pat_C; split; [reflexivity|]; split; [vm_compute; reflexivity|].
  intros j q m Hj Hq.
  destruct j as [|[|j]]; [| |lia]; inversion Hq; subst; vm_compute; reflexivity.
Defined.

(** X15: white space around the text does not change the detected
    language, and detecting on the trimmed text gives the same answer. *)
Theorem detect_ignores_padding (a code b : jsstring) :
  (forall c, In c a -> isWhiteSpace c = true) ->
  (forall c, In c b -> isWhiteSpace c = true) ->
  detectLanguage (a ++ code ++ b) = detectLanguage code
  /\ detectLanguage (trim code) = detectLanguage code.
Proof.
  intros Ha Hb; unfold detectLanguage.
  rewrite (trim_padding _ _ _ Ha Hb), trim_idempotent; split; reflexivity.
Qed.

Lemma detect_ignores_padding_witness :
  detectLanguage (str "  " ++ str "def f(x):" ++ [10%N; 9%N])
    = detectLanguage (str "def f(x):")
  /\ detectLanguage (trim (str "def f(x):")) = detectLanguage (str "def f(x):").
Proof.
  apply (@detect_ignores_padding (str "  ") (str "def f(x):") [10%N; 9%N]).
  - intros c H; simpl in H; repeat (destruct H as [<- | H]; [reflexivity|]); destruct H.
  - intros c H; simpl in H; repeat (destruct H as [<- | H]; [reflexivity|]); destruct H.
Defined.

(** X16: the [#include] alternative of the C++ pattern never decides.  A
    text with [#include], optional white space and [<] is detected as
    JavaScript, Python or C, never as C++; a text detected as C++ has
    [std::], [using namespace] or [cout <<] and no such [#include]. *)
Theorem include_is_never_cpp (code : jsstring) :
  (test re_include code = true ->
   In (detectLanguage code) [JavaScript; Python; C])
  /\ (detectLanguage code = Cpp ->
      test re_cpp_only (trim code) = true
      /\ test re_include (trim code) = false).
Proof.
  split.
  - intros H.
    rewrite <- (@test_trim re_include code eq_refl eq_refl eq_refl) in H.
    unfold detectLanguage.
    destruct (trim code) as [|c t]; [vm_compute in H; discriminate|]; cbn [falsy].
    apply test_pat_C_include in H.
    unfold patterns; cbn [first_match].
    destruct (test pat_JavaScript (c :: t)); [simpl; tauto|].
    destruct (test pat_Python (c :: t)); [simpl; tauto|].
    rewrite H; simpl; tauto.
  - intros H.
    assert (Hl : Cpp <> Unknown) by discriminate.
    unfold detectLanguage in H.
    destruct (trim code) as [|c t]; cbn [falsy] in H; [discriminate|].
    destruct (first_match patterns (c :: t)) as [m|] eqn:Em; [|discriminate].
    subst m; apply first_match_position in Em.
    destruct Em as [i [p [Hi [Ht Hbefore]]]].
    apply pattern_of_Cpp in Hi; destruct Hi as [-> ->].
    assert (HC : test pat_C (c :: t) = false)
      by (apply (Hbefore 2 pat_C C); [lia | reflexivity]).
    assert (Hinc : test re_include (c :: t) = false).
    { destruct (test re_include (c :: t)) eqn:E; [|reflexivity].
      rewrite (test_pat_C_include _ E) in HC; discriminate. }
    rewrite test_pat_Cpp_split, Hinc in Ht; auto.
Qed.

Lemma include_is_never_cpp_witness :
  In (detectLanguage (str "#include <vector>")) [JavaScript; Python; C].
Proof.
  destruct (include_is_never_cpp (str "#include <vector>")) as [H _].
  apply H; vm_compute; reflexivity.
Defined.

(** X17: the [import java.] alternative of the Java pattern never decides.
    A text with [import], white space and [java.] is detected as JavaScript
    or Python, because the Python pattern [import\s+\w+] comes first; a
    text detected as Java has [public class] or [System.out.println]. *)
Theorem import_java_is_never_java (code : jsstring) :
  (test re_import_java code = true ->
   In (detectLanguage code) [JavaScript; Python])
  /\ (detectLanguage code = Java ->
      test re_java_only (trim code) = true
      /\ test re_import_java (trim code) = false).
Proof.
  split.
  - intros H.
    rewrite <- (@test_trim re_import_java code eq_refl eq_refl eq_refl) in H.
    unfold detectLanguage.
    destruct (trim code) as [|c t]; [vm_compute in H; discriminate|]; cbn [falsy].
    apply test_pat_Python_import_java in H.
    unfold patterns; cbn [first_match].
    destruct (test pat_JavaScript (c :: t)); [simpl; tauto|].
    rewrite H; simpl; tauto.
  - intros H.
    unfold detectLanguage in H.
    destruct (trim code) as [|c t]; cbn [falsy] in H; [discriminate|].
    destruct (first_match patterns (c :: t)) as [m|] eqn:Em; [|discriminate].
    subst m; apply first_match_position in Em.
    destruct Em as [i [p [Hi [Ht Hbefore]]]].
    apply pattern_of_Java in Hi; destruct Hi as [-> ->].
    assert (HP : test pat_Python (c :: t) = false)
      by (apply (Hbefore 1 pat_Python Python); [lia | reflexivity]).
    assert (Himp : test re_import_java (c :: t) = false).
    { destruct (test re_import_java (c :: t)) eqn:E; [|reflexivity].
      rewrite (test_pat_Python_import_java _ E) in HP; discriminate. }
    rewrite test_pat_Java_split, Himp in Ht; auto.
Qed.

Lemma import_java_is_never_java_witness :
  In (detectLanguage (str "import java.util.List;")) [JavaScript; Python].
Proof.
  destruct (import_java_is_never_java (str "import java.util.List;")) as [H _].
  apply H; vm_compute; reflexivity.
Defined.

(** X18: an arrow anywhere decides.  Every text that contains [=>] is
    detected as JavaScript, whatever else it contains. *)
Theorem arrow_means_javascript (code : jsstring) :
  contains code (str "=>") -> detectLanguage code = JavaScript.
Proof.
  intros H; apply detect_JavaScript_of_test.
  unfold pat_JavaScript; rewrite !test_Alt.
  apply test_Str in H; rewrite H, orb_true_r; reflexivity.
Qed.

Lemma arrow_means_javascript_witness :
  detectLanguage (str "interface A { f: (x: number) => string }") = JavaScript.
Proof.
  apply arrow_means_javascript.
  exists (str "interface A { f: (x: number) "), (str " string }"); reflexivity.
Defined.

(** * Properties of the component *)

(** X19: the lines that [analyzeCode] analyses.  The text is cut at its line
    feeds: there is one line more than there are line feeds, no line has a
    line feed, and the joined text that the infinite-loop check reads is the
    text without its line feeds.  So every Finding that the timer installs
    is on a line between 0 and the number of line feeds plus one. *)
Theorem analysed_lines (code0 : jsstring) (language : Language)
    (st : Component.State) :
  length (split_lf code0) = S (count_lf code0)
  /\ (forall l, In l (split_lf code0) -> ~ In 10%N l)
  /\ join (split_lf code0) = without_lf code0
  /\ (forall f, In f (Component.errors (Component.onTimeout code0 language st)) ->
        (0 <= line f <= Z.of_nat (count_lf code0) + 1)%Z).
Proof.
  split; [apply split_lf_length|].
  split; [intros l; apply split_lf_no_lf|].
  split; [apply split_lf_join|].
  intros f; unfold Component.onTimeout.
  rewrite analyze_eq; cbn [Component.errors]; rewrite in_app_iff.
  pose proof (split_lf_length code0) as Hlen.
  intros [H | H].
  - apply rule_findings_line in H; simpl in H; lia.
  - destruct (has_loop (join (split_lf code0))); [|destruct H].
    destruct H as [<- | []].
    pose proof (loop_finding_line (split_lf code0)); lia.
Qed.

Lemma analysed_lines_witness :
  (0 <= line (loop_finding (split_lf split_loop_code))
     <= Z.of_nat (count_lf split_loop_code) + 1)%Z.
Proof.
  apply (proj2 (proj2 (proj2
    (analysed_lines split_loop_code Python Component.initial)))).
  vm_compute; left; reflexivity.
Defined.

(** X20: through [analyzeCode], the infinite-loop Finding is installed
    exactly when the text with its line feeds removed contains one of the
    two loop literals; it is the only Finding of severity logical.  A literal
    broken by line feeds is therefore reported. *)
Theorem loop_check_ignores_line_feeds (code0 : jsstring) (language : Language)
    (st : Component.State) :
  (exists f,
     In f (Component.errors (Component.onTimeout code0 language st))
     /\ type f = logical)
  <-> mentions_loop (without_lf code0).
Proof.
  unfold Component.onTimeout; rewrite analyze_eq; cbn [Component.errors].
  rewrite <- split_lf_join, <- has_loop_iff; split.
  - intros [f [Hf Ht]]; apply in_app_iff in Hf; destruct Hf as [Hf | Hf].
    + apply rule_findings_type in Hf; destruct Hf as [r [Hr Hrt]].
      apply rules_not_logical in Hr; congruence.
    + destruct (has_loop (join (split_lf code0))); [reflexivity | destruct Hf].
  - intros H; rewrite H; exists (loop_finding (split_lf code0)); split;
      [apply in_app_iff; right; left; reflexivity | reflexivity].
Qed.

(** X21: the analyze button and the early return of [analyzeCode].  On a
    text of white space only the button is disabled and [analyzeCode] leaves
    the whole state as it is, earlier Findings and Tips included.  When the
    button is enabled, [analyzeCode] clears the Findings and Tips, records
    the detected language, schedules the timer on the current text and
    disables the button.  When the timer has run, on whatever the state is
    by then, the button is disabled exactly when the text that the text area
    then holds is blank: it is enabled again when the timer runs right after
    the click, and stays disabled when the text was blanked in between. *)
Theorem analyze_button_guard (st : Component.State) :
  ((forall c, In c (Component.code st) -> isWhiteSpace c = true) ->
   Component.analyzeDisabled st = true /\ Component.analyzeCode st = st)
  /\ (Component.analyzeDisabled st = false ->
      exists st',
        Component.analyzeCode_start st
          = (st', Some (Component.code st, detectLanguage (Component.code st)))
        /\ Component.errors st' = [] /\ Component.tips st' = []
        /\ Component.language st' = Some (detectLanguage (Component.code st))
        /\ Component.analyzeDisabled st' = true
        /\ Component.analyzeDisabled (Component.analyzeCode st) = false)
  /\ (forall code0 language,
        Component.analyzeDisabled (Component.onTimeout code0 language st)
        = falsy (trim (Component.code st)))
  /\ (forall code0 language value,
        (forall c, In c value -> isWhiteSpace c = true) ->
        Component.analyzeDisabled
          (Component.onTimeout code0 language (Component.setCode value st))
        = true).
Proof.
  unfold Component.analyzeDisabled, Component.analyzeCode,
    Component.analyzeCode_start; split; [|split; [|split]].
  - intros H; apply trim_nil_iff in H; rewrite H; cbn [falsy orb]; auto.
  - intros H; apply orb_false_iff in H; destruct H as [Hf Ha]; rewrite Hf.
    eexists; split; [reflexivity|]; cbn.
    repeat split; [rewrite orb_true_r; reflexivity|].
    unfold Component.onTimeout.
    destruct (analyze (split_lf (Component.code st))
                (detectLanguage (Component.code st)));
      cbn [Component.code Component.isAnalyzing].
    rewrite Hf; reflexivity.
  - intros code0 language; unfold Component.onTimeout.
    destruct (analyze (split_lf code0) language);
      cbn [Component.code Component.isAnalyzing].
    apply orb_false_r.
  - intros code0 language value Hv; unfold Component.onTimeout, Component.setCode.
    destruct (analyze (split_lf code0) language);
      cbn [Component.code Component.isAnalyzing].
    apply trim_nil_iff in Hv; rewrite Hv; reflexivity.
Qed.

Lemma analyze_button_guard_witness :
  Component.analyzeDisabled
    (Component.setCode (str "   ") state_stale) = true
  /\ Component.analyzeCode (Component.setCode (str "   ") state_stale)
     = Component.setCode (str "   ") state_stale.
Proof.
  destruct (analyze_button_guard (Component.setCode (str "   ") state_stale))
    as [H _].
  apply H; intros c Hc; simpl in Hc.
  repeat (destruct Hc as [<- | Hc]; [reflexivity|]); destruct Hc.
Defined.

(** X22: what happens while the timer is pending.  The timer callback
    installs the results of the text it captured, whatever the text area
    holds by then; it keeps the text and the theme of the state it runs on,
    so it commutes with an edit of the text and with a theme toggle made in
    between, and toggling the theme twice restores the state. *)
Theorem timer_and_other_handlers (code0 value : jsstring) (language : Language)
    (st : Component.State) :
  Component.onTimeout code0 language (Component.setCode value st)
    = Component.setCode value (Component.onTimeout code0 language st)
  /\ Component.onTimeout code0 language (Component.toggleTheme st)
     = Component.toggleTheme (Component.onTimeout code0 language st)
  /\ Component.errors (Component.onTimeout code0 language (Component.setCode value st))
     = fst (analyze (split_lf code0) language)
  /\ Component.code (Component.onTimeout code0 language (Component.setCode value st))
     = value
  /\ Component.toggleTheme (Component.toggleTheme st) = st.
Proof.
  unfold Component.onTimeout, Component.setCode, Component.toggleTheme.
  destruct (analyze (split_lf code0) language) as [es ts]; cbn.
  repeat split.
  destruct st as [c l e t a th]; destruct th; reflexivity.
Qed.
